(** * form_validator: a shallow embedding of validator.go

    Go strings are byte sequences, so a Go [string] is a Rocq [string]
    (a list of 8-bit [ascii]); Go [int] and [int64] values are [Z] (the
    validator only compares and prints them); Go maps are [gmap]s keyed by
    strings; a [*multipart.FileHeader] is an [option] (nil is [None]).
    Methods with a pointer receiver take the validator and return the
    updated one. The effects a caller can observe next to the error map
    are returned as well: the number of validation functions [String] and
    [Int] call, and the I/O [Image] does on the upload.

    The development covers [ImageConfig], [Image], [String], [Int],
    [Check], [Valid], the accessors, the predefined validation functions
    and the HTTP adapter [NewHTTP]; [Matches], whose pattern is an
    argument, is left out. *)

From Stdlib Require Import ZArith Strings.Ascii Strings.Byte Bool List Lia.
From stdpp Require Import base option list strings pretty gmap.

Local Open Scope Z_scope.

(** ** The Go standard library, as far as validator.go calls it *)

(** The Unicode-table paths of the library and the content sniffer are kept
    abstract; the ASCII fast paths of [strings] are modelled below. *)
Class GoLib := {
  (** [strings.Map(unicode.ToLower, s)], the non-ASCII path of [strings.ToLower] *)
  unicode_ToLower_Map : string -> string;
  (** [strings.TrimFunc(s, unicode.IsSpace)] *)
  TrimFunc_IsSpace : string -> string;
  (** [strings.TrimRightFunc(s, unicode.IsSpace)] *)
  TrimRightFunc_IsSpace : string -> string;
  (** [http.DetectContentType] *)
  DetectContentType : list byte -> string
}.

(** The numeric value of a byte of a string. *)
Definition byte_val (c : ascii) : Z := Z.of_N (N_of_ascii c).

Definition byte_of_val (n : Z) : ascii := ascii_of_N (Z.to_N n).

(** [utf8.RuneSelf]: bytes below it are single-byte runes. *)
Definition RuneSelf : Z := 128.

Fixpoint string_forallb (p : ascii -> bool) (s : string) : bool :=
  match s with
  | EmptyString => true
  | String c t => p c && string_forallb p t
  end.

Fixpoint string_map (f : ascii -> ascii) (s : string) : string :=
  match s with
  | EmptyString => EmptyString
  | String c t => String (f c) (string_map f t)
  end.

Definition is_ascii (c : ascii) : bool := byte_val c <? RuneSelf.

Definition is_upper (c : ascii) : bool :=
  (byte_val "A" <=? byte_val c) && (byte_val c <=? byte_val "Z").

(** [c += 'a' - 'A'] for an upper-case ASCII letter. *)
Definition lower_byte (c : ascii) : ascii :=
  if is_upper c then byte_of_val (byte_val c + (byte_val "a" - byte_val "A")) else c.

(** [strings.ToLower]: an all-ASCII string is lower-cased byte by byte,
    any other string goes through the Unicode tables. *)
Definition ToLower `{GoLib} (s : string) : string :=
  if string_forallb is_ascii s then string_map lower_byte s
  else unicode_ToLower_Map s.

(** [strings.asciiSpace]. *)
Definition asciiSpace (c : ascii) : bool :=
  match c with
  | "009" | "010" | "011" | "012" | "013" | " " => true
  | _ => false
  end%char.

(** The first loop of [strings.TrimSpace]: skip leading ASCII space; the
    flag is set when the scan ran into a non-ASCII byte. *)
Fixpoint trim_scan (s : string) : string * bool :=
  match s with
  | EmptyString => (EmptyString, false)
  | String c t =>
      if negb (is_ascii c) then (s, true)
      else if asciiSpace c then trim_scan t
      else (s, false)
  end.

(** [strings.TrimSpace]: the second loop is the first one run from the end. *)
Definition TrimSpace `{GoLib} (s : string) : string :=
  let '(s1, uni) := trim_scan s in
  if uni then TrimFunc_IsSpace s1
  else
    let '(r, uni') := trim_scan (String.rev s1) in
    if uni' then TrimRightFunc_IsSpace (String.rev r)
    else String.rev r.

(** [strings.HasPrefix s prefix]. *)
Definition HasPrefix (s pre : string) : bool := String.prefix pre s.

(** [strings.Join]. *)
Fixpoint Join (elems : list string) (sep : string) : string :=
  match elems with
  | [] => ""
  | [e] => e
  | e :: rest => e +:+ sep +:+ Join rest sep
  end.

(** [filepath.Ext] (Unix separator): scan [i] down from [len(path)-1] while
    [path[i]] is not a separator, returning [path[i:]] at the first dot. *)
Fixpoint Ext_loop (path : string) (i : nat) : string :=
  match i with
  | O => ""
  | S k =>
      match String.get k path with
      | Some c =>
          if Ascii.eqb c "/" then ""
          else if Ascii.eqb c "." then String.substring k (String.length path - k) path
          else Ext_loop path k
      | None => ""
      end
  end.

Definition Ext (path : string) : string := Ext_loop path (String.length path).

(** [fmt.Sprintf("%d", n)]. *)
Definition Sprintf_d (n : Z) : string := pretty n.

(** ** strconv *)

Inductive NumError := ErrSyntax | ErrRange.

(** [strconv.ParseBool]. *)
Definition ParseBool (str : string) : bool * option NumError :=
  if existsb (String.eqb str) ["1"; "t"; "T"; "true"; "TRUE"; "True"] then (true, None)
  else if existsb (String.eqb str) ["0"; "f"; "F"; "false"; "FALSE"; "False"] then (false, None)
  else (false, Some ErrSyntax).

Definition maxUint64 : Z := 2 ^ 64 - 1.

(** The digit loop of [strconv.ParseUint(s, 10, 64)]; [n] is the [uint64]
    accumulator, its arithmetic wraps modulo 2^64. *)
Fixpoint ParseUint_loop (s : string) (n : Z) : Z * option NumError :=
  match s with
  | EmptyString => (n, None)
  | String c t =>
      if (byte_val "0" <=? byte_val c) && (byte_val c <=? byte_val "9") then
        let d := byte_val c - byte_val "0" in
        let cutoff := maxUint64 / 10 + 1 in
        if cutoff <=? n then (maxUint64, Some ErrRange)
        else
          let n10 := (n * 10) mod 2 ^ 64 in
          let n1 := (n10 + d) mod 2 ^ 64 in
          if (n1 <? n10) || (maxUint64 <? n1) then (maxUint64, Some ErrRange)
          else ParseUint_loop t n1
      else (0, Some ErrSyntax)
  end.

(** [strconv.ParseUint(s, 10, 64)]. In base 10 a letter is a digit that is
    not below the base and an underscore is not accepted, so every byte
    outside '0'..'9' is a syntax error. *)
Definition ParseUint (s : string) : Z * option NumError :=
  match s with
  | EmptyString => (0, Some ErrSyntax)
  | _ => ParseUint_loop s 0
  end.

(** [strconv.ParseInt(s, 10, 64)]. *)
Definition ParseInt (s : string) : Z * option NumError :=
  match s with
  | EmptyString => (0, Some ErrSyntax)
  | String c t =>
      let '(neg, s') :=
        if Ascii.eqb c "+" then (false, t)
        else if Ascii.eqb c "-" then (true, t)
        else (false, s) in
      let '(un, err) := ParseUint s' in
      match err with
      | Some ErrSyntax => (0, err)
      | _ =>
          let cutoff := 2 ^ 63 in
          if negb neg && (cutoff <=? un) then (cutoff - 1, Some ErrRange)
          else if neg && (cutoff <? un) then (- cutoff, Some ErrRange)
          else (if neg then - un else un, None)
      end
  end.

(** ** unicode/utf8 *)

(** [utf8.first], the information on the first byte of a sequence, given
    as (size, index of the accept range of the second byte); [None] is
    the table's [xx], an illegal first byte. Single-byte runes are
    handled before the table is consulted. *)
Definition first (c : Z) : option (nat * nat) :=
  if c <? 0xC2 then None
  else if c <=? 0xDF then Some (2, 0)%nat
  else if c =? 0xE0 then Some (3, 1)%nat
  else if c <=? 0xEC then Some (3, 0)%nat
  else if c =? 0xED then Some (3, 2)%nat
  else if c <=? 0xEF then Some (3, 0)%nat
  else if c =? 0xF0 then Some (4, 3)%nat
  else if c <=? 0xF3 then Some (4, 0)%nat
  else if c =? 0xF4 then Some (4, 4)%nat
  else None.

(** [utf8.acceptRanges]. *)
Definition acceptRanges (i : nat) : Z * Z :=
  match i with
  | 0%nat => (0x80, 0xBF)
  | 1%nat => (0xA0, 0xBF)
  | 2%nat => (0x80, 0x9F)
  | 3%nat => (0x90, 0xBF)
  | _ => (0x80, 0x8F)
  end.

Definition in_range (lo hi : Z) (c : ascii) : bool :=
  (lo <=? byte_val c) && (byte_val c <=? hi).

(** Continuation bytes lie in [locb, hicb]. *)
Definition is_cont (c : ascii) : bool := in_range 0x80 0xBF c.

(** The width in bytes of the rune that starts with byte [c] and is
    followed by [rest], as the body of the loop of
    [utf8.RuneCountInString] computes it: an illegal, short or broken
    sequence has width 1. *)
Definition rune_width (c : ascii) (rest : string) : nat :=
  if byte_val c <? RuneSelf then 1%nat
  else
    match first (byte_val c) with
    | None => 1%nat
    | Some (size, ar) =>
        if (String.length rest <? size - 1)%nat then 1%nat
        else
          let '(lo, hi) := acceptRanges ar in
          match rest with
          | String c1 r1 =>
              if negb (in_range lo hi c1) then 1%nat
              else if (size =? 2)%nat then 2%nat
              else
                match r1 with
                | String c2 r2 =>
                    if negb (is_cont c2) then 1%nat
                    else if (size =? 3)%nat then 3%nat
                    else
                      match r2 with
                      | String c3 _ => if negb (is_cont c3) then 1%nat else 4%nat
                      | EmptyString => 1%nat
                      end
                | EmptyString => 1%nat
                end
          | EmptyString => 1%nat
          end
    end.

(** The loop of [utf8.RuneCountInString]: [skip] bytes of the current rune
    are still to be passed over; at [skip = 0] a rune starts, is counted,
    and its width decides how many of the following bytes belong to it. *)
Fixpoint rune_count_loop (s : string) (skip : nat) : Z :=
  match s with
  | EmptyString => 0
  | String c t =>
      match skip with
      | S k => rune_count_loop t k
      | O => 1 + rune_count_loop t (rune_width c t - 1)
      end
  end.

Definition RuneCountInString (s : string) : Z := rune_count_loop s 0.

(** ** Data model of validator.go *)

Record FileValidationConfig := {
  MaxSize : Z;                  (* maximum file size in bytes *)
  AllowedTypes : list string;   (* allowed MIME types *)
  AllowedExts : list string     (* allowed file extensions *)
}.

Definition MimeJPEG := "image/jpeg".
Definition MimePNG := "image/png".
Definition MimeGIF := "image/gif".
Definition MimeWEBP := "image/webp".

Definition DefaultImageFormats : list string := ["jpg"; "jpeg"; "png"; "gif"; "webp"].

Definition KB : Z := 1024.
Definition MB : Z := 1024 * KB.

(** The error of [f.Read]: nil, [io.EOF], or any other error. *)
Inductive ReadError := ReadNil | ReadEOF | ReadFailed.

(** An opened upload, as far as [Image] uses it: what its first [Read]
    delivers and the error that comes with it. *)
Record File := {
  Read_data : list byte;
  Read_err : ReadError
}.

(** The outcome of [FileHeader.Open]. *)
Inductive OpenResult := OpenOk (f : File) | OpenErr.

(** [multipart.FileHeader]: the two fields [Image] reads and the
    behaviour of [Open]. *)
Record FileHeader := {
  Filename : string;
  Size : Z;
  Open : OpenResult
}.

(** What [Image] does to the upload, in order. *)
Inductive IOEvent := EvOpen | EvRead | EvClose.

Definition ValidationFunc : Type := string -> string -> bool * string.

(** [buffer := make([]byte, 512)] after [f.Read(buffer)]: the bytes read,
    at most 512 of them, over a zeroed buffer. *)
Definition read_buffer (f : File) : list byte :=
  take 512 (Read_data f ++ replicate 512 x00).

(** The [for ... switch] of [ImageConfig], with the two slices it appends to. *)
Fixpoint ImageConfig_loop `{GoLib} (formats mimeTypes extensions : list string)
  : list string * list string :=
  match formats with
  | [] => (mimeTypes, extensions)
  | format :: rest =>
      let f := ToLower format in
      if String.eqb f "jpg" || String.eqb f "jpeg" then
        ImageConfig_loop rest (mimeTypes ++ [MimeJPEG]) (extensions ++ [".jpg"; ".jpeg"])
      else if String.eqb f "png" then
        ImageConfig_loop rest (mimeTypes ++ [MimePNG]) (extensions ++ [".png"])
      else if String.eqb f "gif" then
        ImageConfig_loop rest (mimeTypes ++ [MimeGIF]) (extensions ++ [".gif"])
      else if String.eqb f "webp" then
        ImageConfig_loop rest (mimeTypes ++ [MimeWEBP]) (extensions ++ [".webp"])
      else ImageConfig_loop rest mimeTypes extensions
  end.

Definition ImageConfig `{GoLib} (maxSize : Z) (formats : list string) : FileValidationConfig :=
  let formats := if (length formats =? 0)%nat then DefaultImageFormats else formats in
  let '(mimeTypes, extensions) := ImageConfig_loop formats [] [] in
  {| MaxSize := maxSize; AllowedTypes := mimeTypes; AllowedExts := extensions |}.

(** ** Predefined validation functions *)

Definition Required `{GoLib} : ValidationFunc := fun field value =>
  if String.eqb (TrimSpace value) "" then (false, "This field is required")
  else (true, "").

Definition MinLength (min : Z) : ValidationFunc := fun field value =>
  if RuneCountInString value <? min then
    (false, "This field must be at least " +:+ Sprintf_d min +:+ " characters long")
  else (true, "").

Definition MaxLength (max : Z) : ValidationFunc := fun field value =>
  if max <? RuneCountInString value then
    (false, "This field must not exceed " +:+ Sprintf_d max +:+ " characters")
  else (true, "").

Definition Boolean `{GoLib} : ValidationFunc := fun field value =>
  let value := TrimSpace (ToLower value) in
  match snd (ParseBool value) with
  | Some _ => (false, "This field must be true or false")
  | None => (true, "")
  end.

Definition IntRange (min max : Z) : ValidationFunc := fun field value => (true, "").

Definition InStringSlice (slice : list string) : ValidationFunc := fun field value =>
  if existsb (fun item => String.eqb item value) slice then (true, "")
  else (false, "This value is not in the allowed list").


(** ** The validator *)

Module Validator.

Record t := mk {
  Errors : gmap string string;
  values : gmap string string;
  files : gmap string (option FileHeader)
}.

Definition New : t := mk ∅ ∅ ∅.

(** [v.Errors[field] = message] *)
Definition set_error (field message : string) (v : t) : t :=
  mk (<[field := message]> (Errors v)) (values v) (files v).

Definition SetValue (field value : string) (v : t) : t :=
  mk (Errors v) (<[field := value]> (values v)) (files v).

(** A missing key reads as the zero value. *)
Definition GetValue (field : string) (v : t) : string :=
  default "" (values v !! field).

Definition SetFile (field : string) (file : option FileHeader) (v : t) : t :=
  mk (Errors v) (values v) (<[field := file]> (files v)).

Definition GetFile (field : string) (v : t) : option FileHeader :=
  default None (files v !! field).

(** The loop shared by [String] and [Int]:
    [for _, validation := range validations { if ok, message :=
    validation(field, value); !ok { v.Errors[field] = message; break } }].
    Next to the validator it returns how many of the functions it called. *)
Fixpoint validate (field value : string) (validations : list ValidationFunc) (v : t)
  : t * nat :=
  match validations with
  | [] => (v, 0%nat)
  | validation :: rest =>
      let '(ok, message) := validation field value in
      if negb ok then (set_error field message v, 1%nat)
      else
        let '(v', n) := validate field value rest v in
        (v', S n)
  end.

Section WithLib.
Context `{GoLib}.

(** [Image]: the returned file, the validator, and the I/O done on the
    upload. [defer f.Close()] runs on every return after a successful
    [Open]. *)
Definition Image (field : string) (config : FileValidationConfig) (v : t)
  : option FileHeader * t * list IOEvent :=
  match GetFile field v with
  | None => (None, set_error field "No file was uploaded" v, [])
  | Some file =>
      if (0 <? MaxSize config) && (MaxSize config <? Size file) then
        (None,
         set_error field
           ("File size exceeds maximum limit of " +:+ Sprintf_d (MaxSize config) +:+ " bytes") v,
         [])
      else
        let ext := ToLower (Ext (Filename file)) in
        if (0 <? length (AllowedExts config))%nat
           && negb (existsb (fun allowedExt => String.eqb (ToLower allowedExt) ext)
                      (AllowedExts config)) then
          (None,
           set_error field
             ("Invalid file extension. Allowed: " +:+ Join (AllowedExts config) ", ") v,
           [])
        else
          match Open file with
          | OpenErr => (None, set_error field "Could not process file" v, [EvOpen])
          | OpenOk f =>
              let buffer := read_buffer f in
              match Read_err f with
              | ReadFailed =>
                  (None, set_error field "Could not read file content" v,
                   [EvOpen; EvRead; EvClose])
              | _ =>
                  let detectedType := DetectContentType buffer in
                  if (0 <? length (AllowedTypes config))%nat
                     && negb (existsb (fun allowedType => HasPrefix detectedType allowedType)
                                (AllowedTypes config)) then
                    (None,
                     set_error field
                       ("Invalid file type. Allowed: " +:+ Join (AllowedTypes config) ", ") v,
                     [EvOpen; EvRead; EvClose])
                  else (Some file, v, [EvOpen; EvRead; EvClose])
              end
          end
  end.

End WithLib.

(** [String]: the stored value, the validator, and the number of
    validation functions called. *)
Definition String (field : string) (validations : list ValidationFunc) (v : t)
  : string * t * nat :=
  let value := GetValue field v in
  let '(v', n) := validate field value validations v in
  (value, v', n).

Definition Int (field : string) (validations : list ValidationFunc) (v : t)
  : Z * t * nat :=
  let value := GetValue field v in
  let '(v', n) := validate field value validations v in
  let '(intValue, err) := ParseInt value in
  match err with
  | Some _ => (0, set_error field "This field must be a valid integer" v', n)
  | None => (intValue, v', n)
  end.

Definition Check (ok : bool) (field message : string) (v : t) : t :=
  if negb ok then set_error field message v else v.

Definition Valid (v : t) : bool := (size (Errors v) =? 0)%nat.

End Validator.

(** ** Sequences of calls on one validator *)

(** A call of a public method. [GetValue], [GetFile] and [Valid] only read. *)
Inductive Op :=
  | OpSetValue (field value : string)
  | OpSetFile (field : string) (file : option FileHeader)
  | OpGetValue (field : string)
  | OpGetFile (field : string)
  | OpString (field : string) (validations : list ValidationFunc)
  | OpInt (field : string) (validations : list ValidationFunc)
  | OpImage (field : string) (config : FileValidationConfig)
  | OpCheck (ok : bool) (field message : string)
  | OpValid.

(** The validator after one call. *)
Definition exec `{GoLib} (op : Op) (v : Validator.t) : Validator.t :=
  match op with
  | OpSetValue field value => Validator.SetValue field value v
  | OpSetFile field file => Validator.SetFile field file v
  | OpGetValue _ | OpGetFile _ | OpValid => v
  | OpString field validations => (Validator.String field validations v).1.2
  | OpInt field validations => (Validator.Int field validations v).1.2
  | OpImage field config => (Validator.Image field config v).1.2
  | OpCheck ok field message => Validator.Check ok field message v
  end.

Definition run `{GoLib} (ops : list Op) (v : Validator.t) : Validator.t :=
  fold_left (fun v op => exec op v) ops v.

(** The calls that write [field] into one of the two stores. *)
Definition sets_field (field : string) (op : Op) : bool :=
  match op with
  | OpSetValue f _ | OpSetFile f _ => String.eqb f field
  | _ => false
  end.

(** An instance of the library on which the model can be evaluated: the
    three Unicode paths are the identity (ASCII data never reaches them) and
    the sniffer answers its fallback type. *)
Definition sample_lib : GoLib := {|
  unicode_ToLower_Map := fun s => s;
  TrimFunc_IsSpace := fun s => s;
  TrimRightFunc_IsSpace := fun s => s;
  DetectContentType := fun _ => "application/octet-stream"
|}.

(** ** The checks of [Image], one by one

    Each check is read off the corresponding [if] of [Image]; it gives the
    message to record when the check fails. *)

Definition int_message : string := "This field must be a valid integer".

Definition size_message (config : FileValidationConfig) : string :=
  "File size exceeds maximum limit of " +:+ Sprintf_d (MaxSize config) +:+ " bytes".

Definition size_check (config : FileValidationConfig) (file : FileHeader) : option string :=
  if (0 <? MaxSize config) && (MaxSize config <? Size file)
  then Some (size_message config) else None.

Definition extension_check `{GoLib} (config : FileValidationConfig) (file : FileHeader)
  : option string :=
  if (0 <? length (AllowedExts config))%nat
     && negb (existsb
                (fun allowedExt =>
                   String.eqb (ToLower allowedExt) (ToLower (Ext (Filename file))))
                (AllowedExts config))
  then Some ("Invalid file extension. Allowed: " +:+ Join (AllowedExts config) ", ")
  else None.

(** The comparison of the sniffed type with the allowed ones. *)
Definition type_check `{GoLib} (config : FileValidationConfig) (f : File) : option string :=
  if (0 <? length (AllowedTypes config))%nat
     && negb (existsb (fun allowedType => HasPrefix (DetectContentType (read_buffer f)) allowedType)
                (AllowedTypes config))
  then Some ("Invalid file type. Allowed: " +:+ Join (AllowedTypes config) ", ")
  else None.

(** The MIME sniff: open, read, compare. *)
Definition sniff_check `{GoLib} (config : FileValidationConfig) (file : FileHeader)
  : option string :=
  match Open file with
  | OpenErr => Some "Could not process file"
  | OpenOk f =>
      match Read_err f with
      | ReadFailed => Some "Could not read file content"
      | _ => type_check config f
      end
  end.

(** The I/O of the MIME sniff. *)
Definition sniff_io (file : FileHeader) : list IOEvent :=
  match Open file with
  | OpenErr => [EvOpen]
  | OpenOk _ => [EvOpen; EvRead; EvClose]
  end.

Definition with_MaxSize (maxSize : Z) (config : FileValidationConfig) : FileValidationConfig :=
  {| MaxSize := maxSize; AllowedTypes := AllowedTypes config; AllowedExts := AllowedExts config |}.

(** ** The format table of [ImageConfig], as the specification words it *)

(** Format name, MIME type, extensions. *)
Definition format_table : list (string * (string * list string)) :=
  [("jpg", ("image/jpeg", [".jpg"; ".jpeg"]));
   ("jpeg", ("image/jpeg", [".jpg"; ".jpeg"]));
   ("png", ("image/png", [".png"]));
   ("gif", ("image/gif", [".gif"]));
   ("webp", ("image/webp", [".webp"]))].

(** What one format name adds to the MIME types and to the extensions:
    the table entry of its lower-cased name, nothing when there is none. *)
Definition expansion `{GoLib} (format : string) : list string * list string :=
  match find (fun entry => String.eqb (ToLower format) entry.1) format_table with
  | Some (_, (mime, exts)) => ([mime], exts)
  | None => ([], [])
  end.

Definition is_lower (c : ascii) : bool :=
  (byte_val "a" <=? byte_val c) && (byte_val c <=? byte_val "z").

Definition upper_byte (c : ascii) : ascii :=
  if is_lower c then byte_of_val (byte_val c - (byte_val "a" - byte_val "A")) else c.

(** [case_variant s name]: [s] is [name] with some of its lower-case ASCII
    letters written in upper case. *)
Fixpoint case_variant (s name : string) : bool :=
  match s, name with
  | EmptyString, EmptyString => true
  | String a s', String b name' =>
      (Ascii.eqb a b || Ascii.eqb a (upper_byte b)) && case_variant s' name'
  | _, _ => false
  end.

(** The tokens [strconv.ParseBool] accepts. *)
Definition ParseBool_tokens : list string :=
  ["1"; "t"; "T"; "true"; "TRUE"; "True"; "0"; "f"; "F"; "false"; "FALSE"; "False"].

(** ** Code points and their UTF-8 encoding (the Unicode standard, table 3-6) *)

(** A Unicode scalar value: a code point outside the surrogate range. *)
Definition scalar_value (r : Z) : Prop :=
  0 <= r < 0xD800 \/ 0xE000 <= r <= 0x10FFFF.

Definition encode_rune (r : Z) : string :=
  if r <? 0x80 then
    String (byte_of_val r) ""
  else if r <? 0x800 then
    String (byte_of_val (0xC0 + r / 64))
      (String (byte_of_val (0x80 + r mod 64)) "")
  else if r <? 0x10000 then
    String (byte_of_val (0xE0 + r / 4096))
      (String (byte_of_val (0x80 + (r / 64) mod 64))
         (String (byte_of_val (0x80 + r mod 64)) ""))
  else
    String (byte_of_val (0xF0 + r / 262144))
      (String (byte_of_val (0x80 + (r / 4096) mod 64))
         (String (byte_of_val (0x80 + (r / 64) mod 64))
            (String (byte_of_val (0x80 + r mod 64)) ""))).

(** The string that holds the code points [cps], one after the other. *)
Fixpoint utf8_encode (cps : list Z) : string :=
  match cps with
  | [] => ""
  | r :: rest => encode_rune r +:+ utf8_encode rest
  end.

(** * Properties *)

(** Settle the comparisons of integers in the goal, one after the other. *)
Ltac decide_tests :=
  repeat match goal with
         | |- context [?a <? ?b] => destruct (Z.ltb_spec a b); try lia
         | |- context [?a <=? ?b] => destruct (Z.leb_spec a b); try lia
         | |- context [?a =? ?b] => destruct (Z.eqb_spec a b); try lia
         end.

(** ** The validation loop *)

Definition passes (field value : string) (f : ValidationFunc) : Prop :=
  (f field value).1 = true.


Lemma validate_first_failure field value passed fail rest message v :
  Forall (passes field value) passed ->
  fail field value = (false, message) ->
  Validator.validate field value (passed ++ fail :: rest) v
  = (Validator.set_error field message v, S (length passed)).
Proof.
  intros Hp Hf. induction Hp as [|f fs Hfp _ IH]; simpl.
  - now rewrite Hf.
  - unfold passes in Hfp. destruct (f field value) as [ok m]; simpl in Hfp.
    subst ok; simpl. now rewrite IH.
Qed.

(** The loop leaves the validator alone or records one message under [field]. *)
Lemma validate_cases field value validations v :
  (Validator.validate field value validations v).1 = v
  \/ exists message,
       (Validator.validate field value validations v).1
       = Validator.set_error field message v.
Proof.
  induction validations as [|f fs IH]; simpl; [now left|].
  destruct (f field value) as [[] m]; simpl.
  - destruct (Validator.validate field value fs v) as [v' n]; exact IH.
  - right; now exists m.
Qed.

Lemma set_error_twice field m1 m2 v :
  Validator.set_error field m2 (Validator.set_error field m1 v)
  = Validator.set_error field m2 v.
Proof. unfold Validator.set_error; simpl. now rewrite insert_insert_eq. Qed.

(** Reading the error map after [v.Errors[field] = message]. *)
Lemma set_error_recorded field message v :
  Validator.Errors (Validator.set_error field message v) !! field = Some message.
Proof. unfold Validator.set_error; simpl. now rewrite lookup_insert_eq. Qed.

Lemma set_error_other field message v other :
  other <> field ->
  Validator.Errors (Validator.set_error field message v) !! other
  = Validator.Errors v !! other.
Proof. intros Hne. unfold Validator.set_error; simpl. now rewrite lookup_insert_ne. Qed.



Lemma String_cases field validations v :
  (Validator.String field validations v).1.2 = v
  \/ exists message,
       (Validator.String field validations v).1.2 = Validator.set_error field message v.
Proof.
  unfold Validator.String.
  pose proof (validate_cases field (Validator.GetValue field v) validations v) as Hc.
  now destruct (Validator.validate field (Validator.GetValue field v) validations v).
Qed.

Lemma Int_on_parse_error field validations v intValue e :
  ParseInt (Validator.GetValue field v) = (intValue, Some e) ->
  Validator.Int field validations v
  = (0, Validator.set_error field int_message v,
     (Validator.validate field (Validator.GetValue field v) validations v).2).
Proof.
  intros Hp. unfold Validator.Int. rewrite Hp.
  pose proof (validate_cases field (Validator.GetValue field v) validations v) as Hc.
  destruct (Validator.validate field (Validator.GetValue field v) validations v) as [v' n].
  simpl in *. destruct Hc as [->|[m ->]]; [reflexivity|].
  now rewrite set_error_twice.
Qed.

Lemma Int_on_parse_ok field validations v intValue :
  ParseInt (Validator.GetValue field v) = (intValue, None) ->
  Validator.Int field validations v
  = (intValue,
     (Validator.validate field (Validator.GetValue field v) validations v).1,
     (Validator.validate field (Validator.GetValue field v) validations v).2).
Proof.
  intros Hp. unfold Validator.Int. rewrite Hp.
  now destruct (Validator.validate field (Validator.GetValue field v) validations v).
Qed.

Lemma Int_cases field validations v :
  (Validator.Int field validations v).1.2 = v
  \/ exists message,
       (Validator.Int field validations v).1.2 = Validator.set_error field message v.
Proof.
  destruct (ParseInt (Validator.GetValue field v)) as [i [e|]] eqn:Hp.
  - rewrite (Int_on_parse_error _ _ _ _ _ Hp). right. now eexists.
  - rewrite (Int_on_parse_ok _ _ _ _ Hp). apply validate_cases.
Qed.



Example Int_valid_integer :
  Validator.Int "age" [] (Validator.SetValue "age" "25" Validator.New)
  = (25, Validator.SetValue "age" "25" Validator.New, 0%nat).
Proof. reflexivity. Qed.

Example Int_invalid_integer :
  Validator.Int "age" [] (Validator.SetValue "age" "not-a-number" Validator.New)
  = (0,
     Validator.set_error "age" int_message
       (Validator.SetValue "age" "not-a-number" Validator.New),
     0%nat).
Proof. reflexivity. Qed.

(** A failing validation does not stop the parse, and its message stays
    when the parse succeeds. *)
Example Int_keeps_validation_error :
  Validator.Int "age" [MinLength 3] (Validator.SetValue "age" "25" Validator.New)
  = (25,
     Validator.set_error "age" "This field must be at least 3 characters long"
       (Validator.SetValue "age" "25" Validator.New),
     1%nat).
Proof. reflexivity. Qed.

(** ** The error sink over sequences of calls *)

Section Sequences.
Context `{GoLib}.

Lemma set_error_dom field message v :
  dom (Validator.Errors v) ⊆ dom (Validator.Errors (Validator.set_error field message v)).
Proof. unfold Validator.set_error; simpl. rewrite dom_insert_L. set_solver. Qed.

(** [Image] leaves the validator alone or records one message under [field]. *)
Lemma Image_cases field config v :
  (Validator.Image field config v).1.2 = v
  \/ exists message,
       (Validator.Image field config v).1.2 = Validator.set_error field message v.
Proof.
  unfold Validator.Image.
  repeat match goal with
         | |- context [match ?x with _ => _ end] => destruct x
         end; simpl; eauto.
Qed.

(** A call leaves the validator alone, records one message, or writes one store. *)
Lemma exec_shape op v :
  exec op v = v
  \/ (exists field message, exec op v = Validator.set_error field message v)
  \/ (exists field value, op = OpSetValue field value
                           /\ exec op v = Validator.SetValue field value v)
  \/ (exists field file, op = OpSetFile field file
                          /\ exec op v = Validator.SetFile field file v).
Proof.
  destruct op as [f x|f x|f|f|f vs|f vs|f cfg|ok f m|]; simpl; auto.
  - right; right; left. now exists f, x.
  - right; right; right. now exists f, x.
  - destruct (String_cases f vs v) as [->|[m ->]]; eauto.
  - destruct (Int_cases f vs v) as [->|[m ->]]; eauto.
  - destruct (Image_cases f cfg v) as [->|[m ->]]; eauto.
  - destruct ok; simpl; eauto.
Qed.

Lemma exec_cases op v :
  Validator.Errors (exec op v) = Validator.Errors v
  \/ exists field message,
       Validator.Errors (exec op v) = <[field := message]> (Validator.Errors v).
Proof.
  destruct (exec_shape op v) as [->|[(f & m & ->)|[(f & x & _ & ->)|(f & x & _ & ->)]]];
    simpl; eauto.
Qed.

Lemma exec_dom op v :
  dom (Validator.Errors v) ⊆ dom (Validator.Errors (exec op v)).
Proof.
  destruct (exec_cases op v) as [->|(f & m & ->)]; [reflexivity|].
  rewrite dom_insert_L. set_solver.
Qed.

Lemma run_dom ops v :
  dom (Validator.Errors v) ⊆ dom (Validator.Errors (run ops v)).
Proof.
  revert v. induction ops as [|op ops IH]; intros v; simpl; [reflexivity|].
  etransitivity; [apply (exec_dom op)|apply IH].
Qed.

Lemma Valid_false_iff v :
  Validator.Valid v = false <-> exists field, field ∈ dom (Validator.Errors v).
Proof.
  unfold Validator.Valid. rewrite Nat.eqb_neq.
  rewrite map_size_non_empty_iff, <- dom_empty_iff_L.
  split.
  - intros Hne. apply set_choose_L in Hne. exact Hne.
  - intros [f Hf] He. rewrite He in Hf. set_solver.
Qed.

(** C9: across any sequence of calls of [SetValue], [SetFile], [GetValue],
    [GetFile], [String], [Int], [Image], [Check] and [Valid], every field
    with a recorded error keeps one, so a validator that is not valid
    stays not valid. *)
Theorem error_sink_only_grows ops v :
  dom (Validator.Errors v) ⊆ dom (Validator.Errors (run ops v))
  /\ (Validator.Valid v = false -> Validator.Valid (run ops v) = false).
Proof.
  split; [apply run_dom|].
  rewrite !Valid_false_iff. intros [f Hf]. exists f.
  now apply (run_dom ops v).
Qed.

End Sequences.

Lemma error_sink_only_grows_witness :
  Validator.Valid
    (@run sample_lib
       [OpSetValue "name" "John"; OpString "name" [MinLength 3]; OpImage "avatar" (@ImageConfig sample_lib MB []);
        OpCheck true "name" "unused"; OpValid]
       (Validator.set_error "name" "This field is required" Validator.New))
  = false.
Proof.
  apply (proj2 (@error_sink_only_grows sample_lib _ _)).
  reflexivity.
Defined.

(** ** Fields that were never set *)

Section Absent.
Context `{GoLib}.

Lemma exec_values op v field :
  sets_field field op = false ->
  Validator.values (exec op v) !! field = Validator.values v !! field.
Proof.
  intros Hs.
  destruct (exec_shape op v) as [->|[(f & m & ->)|[(f & x & -> & ->)|(f & x & _ & ->)]]];
    simpl in *; try reflexivity.
  apply String.eqb_neq in Hs. now rewrite lookup_insert_ne.
Qed.

Lemma exec_files op v field :
  sets_field field op = false ->
  Validator.files (exec op v) !! field = Validator.files v !! field.
Proof.
  intros Hs.
  destruct (exec_shape op v) as [->|[(f & m & ->)|[(f & x & _ & ->)|(f & x & -> & ->)]]];
    simpl in *; try reflexivity.
  apply String.eqb_neq in Hs. now rewrite lookup_insert_ne.
Qed.

Lemma run_never_set ops v field :
  forallb (fun op => negb (sets_field field op)) ops = true ->
  Validator.values (run ops v) !! field = Validator.values v !! field
  /\ Validator.files (run ops v) !! field = Validator.files v !! field.
Proof.
  revert v. induction ops as [|op ops IH]; intros v Hn; simpl in *; [easy|].
  apply andb_true_iff in Hn as [Hop Hn]. apply negb_true_iff in Hop.
  destruct (IH (exec op v) Hn) as [-> ->].
  split; [now apply exec_values|now apply exec_files].
Qed.

(** C10: on a validator built from [New] by calls none of which sets
    [field], [GetValue] gives the empty string and [GetFile] gives nil;
    [String] and [Int] run their validations against the empty string
    (a validation that fails on the empty string leaves its message under
    the field); [Int] returns 0 and the error map then reads "This field
    must be a valid integer" under the field, also with no validations;
    after [Image] it reads "No file was uploaded" there and nil is
    returned. *)
Theorem absent_field_is_zero_value field ops :
  forallb (fun op => negb (sets_field field op)) ops = true ->
  let v := run ops Validator.New in
  Validator.GetValue field v = ""
  /\ Validator.GetFile field v = None
  /\ (forall validations,
        Validator.String field validations v
        = ("", (Validator.validate field "" validations v).1,
           (Validator.validate field "" validations v).2))
  /\ (forall passed fail rest message,
        Forall (passes field "") passed ->
        fail field "" = (false, message) ->
        Validator.Errors (Validator.String field (passed ++ fail :: rest) v).1.2 !! field
        = Some message)
  /\ (forall validations,
        Validator.Int field validations v
        = (0, Validator.set_error field "This field must be a valid integer" v,
           (Validator.validate field "" validations v).2)
        /\ Validator.Errors (Validator.Int field validations v).1.2 !! field
           = Some "This field must be a valid integer")
  /\ (Validator.Int field [] v
      = (0, Validator.set_error field "This field must be a valid integer" v, 0%nat)
      /\ Validator.Errors (Validator.Int field [] v).1.2 !! field
         = Some "This field must be a valid integer")
  /\ (forall config,
        Validator.Image field config v
        = (None, Validator.set_error field "No file was uploaded" v, [])
        /\ Validator.Errors (Validator.Image field config v).1.2 !! field
           = Some "No file was uploaded").
Proof.
  intros Hn v.
  destruct (run_never_set ops Validator.New field Hn) as [Hv Hf].
  fold v in Hv, Hf. simpl in Hv, Hf.
  rewrite lookup_empty in Hv. rewrite lookup_empty in Hf.
  assert (Hg : Validator.GetValue field v = "")
    by (unfold Validator.GetValue; now rewrite Hv).
  assert (Hgf : Validator.GetFile field v = None)
    by (unfold Validator.GetFile; now rewrite Hf).
  assert (Hint : forall validations,
             Validator.Int field validations v
             = (0, Validator.set_error field "This field must be a valid integer" v,
                (Validator.validate field "" validations v).2)).
  { intros validations.
    rewrite (Int_on_parse_error field validations v 0 ErrSyntax) by now rewrite Hg.
    now rewrite Hg. }
  split; [exact Hg|]. split; [exact Hgf|]. split; [|split; [|split; [|split]]].
  - intros validations. unfold Validator.String. rewrite Hg.
    now destruct (Validator.validate field "" validations v).
  - intros passed fail rest message Hp Hfail. unfold Validator.String. rewrite Hg.
    rewrite (validate_first_failure _ _ _ _ _ _ _ Hp Hfail). simpl.
    apply set_error_recorded.
  - intros validations. rewrite (Hint validations). simpl.
    split; [reflexivity|apply set_error_recorded].
  - rewrite (Hint []). simpl. split; [reflexivity|apply set_error_recorded].
  - intros config. unfold Validator.Image. rewrite Hgf. simpl.
    split; [reflexivity|apply set_error_recorded].
Qed.

End Absent.

Lemma absent_field_is_zero_value_witness :
  Validator.Errors
    (Validator.Int "age" []
       (@run sample_lib [OpSetValue "name" "John"; OpString "name" [MinLength 3]]
          Validator.New)).1.2
  !! "age" = Some "This field must be a valid integer".
Proof.
  refine (proj2 (proj1 (proj2 (proj2 (proj2 (proj2 (proj2
    (@absent_field_is_zero_value sample_lib "age"
       [OpSetValue "name" "John"; OpString "name" [MinLength 3]] _)))))))).
  reflexivity.
Defined.

(** ** [Image] *)

Section ImageChecks.
Context `{GoLib}.

(** C3: [Image] looks the file up, then checks the size, then the
    extension, then sniffs the content. The first check that fails decides:
    nil is returned and the error map reads that check's message under the
    field; a failure before the sniff leaves the upload untouched (no
    I/O), so the later checks did not run. When every check passes the
    stored file is returned and the error of the field is as it was. The
    errors of the other fields are never touched. *)
Theorem Image_checks_in_order field config v :
  Validator.Image field config v =
  match Validator.GetFile field v with
  | None => (None, Validator.set_error field "No file was uploaded" v, [])
  | Some file =>
      match size_check config file with
      | Some message => (None, Validator.set_error field message v, [])
      | None =>
          match extension_check config file with
          | Some message => (None, Validator.set_error field message v, [])
          | None =>
              match sniff_check config file with
              | Some message => (None, Validator.set_error field message v, sniff_io file)
              | None => (Some file, v, sniff_io file)
              end
          end
      end
  end
  /\ Validator.Errors (Validator.Image field config v).1.2 !! field =
     match Validator.GetFile field v with
     | None => Some "No file was uploaded"
     | Some file =>
         match size_check config file with
         | Some message => Some message
         | None =>
             match extension_check config file with
             | Some message => Some message
             | None =>
                 match sniff_check config file with
                 | Some message => Some message
                 | None => Validator.Errors v !! field
                 end
             end
         end
     end
  /\ (forall other, other <> field ->
        Validator.Errors (Validator.Image field config v).1.2 !! other
        = Validator.Errors v !! other).
Proof.
  assert (Heq : Validator.Image field config v =
    match Validator.GetFile field v with
    | None => (None, Validator.set_error field "No file was uploaded" v, [])
    | Some file =>
        match size_check config file with
        | Some message => (None, Validator.set_error field message v, [])
        | None =>
            match extension_check config file with
            | Some message => (None, Validator.set_error field message v, [])
            | None =>
                match sniff_check config file with
                | Some message => (None, Validator.set_error field message v, sniff_io file)
                | None => (Some file, v, sniff_io file)
                end
            end
        end
    end).
  { unfold Validator.Image.
    destruct (Validator.GetFile field v) as [file|]; [|reflexivity].
    unfold size_check, size_message.
    destruct ((0 <? MaxSize config) && (MaxSize config <? Size file)); [reflexivity|].
    unfold extension_check.
    match goal with |- context [if ?b then _ else _] => destruct b end; [reflexivity|].
    unfold sniff_check, sniff_io, type_check.
    destruct (Open file) as [f|]; [|reflexivity].
    destruct (Read_err f); try reflexivity;
      match goal with |- context [if ?b then _ else _] => destruct b end; reflexivity. }
  split; [exact Heq|]. rewrite Heq.
  destruct (Validator.GetFile field v) as [file|]; simpl.
  2:{ split; [apply set_error_recorded|]. intros other Hne. now apply set_error_other. }
  destruct (size_check config file) as [m|]; simpl.
  { split; [apply set_error_recorded|]. intros other Hne. now apply set_error_other. }
  destruct (extension_check config file) as [m|]; simpl.
  { split; [apply set_error_recorded|]. intros other Hne. now apply set_error_other. }
  destruct (sniff_check config file) as [m|]; simpl.
  { split; [apply set_error_recorded|]. intros other Hne. now apply set_error_other. }
  split; [reflexivity|]. intros other Hne. reflexivity.
Qed.

Lemma size_check_spec config file :
  (size_check config file = Some (size_message config)
   /\ 0 < MaxSize config /\ MaxSize config < Size file)
  \/ (size_check config file = None
      /\ ~ (0 < MaxSize config /\ MaxSize config < Size file)).
Proof.
  unfold size_check.
  destruct (Z.ltb_spec 0 (MaxSize config)), (Z.ltb_spec (MaxSize config) (Size file));
    simpl; [left|right..]; repeat split; try assumption; lia.
Qed.

Lemma Image_size_fails field config v file message :
  Validator.GetFile field v = Some file ->
  size_check config file = Some message ->
  Validator.Image field config v = (None, Validator.set_error field message v, []).
Proof.
  intros Hf Hs. unfold Validator.Image. rewrite Hf.
  unfold size_check, size_message in Hs.
  destruct ((0 <? MaxSize config) && (MaxSize config <? Size file)); [|discriminate].
  now injection Hs as <-.
Qed.

(** Past the size check [Image] does not look at [MaxSize] any more. *)
Lemma Image_size_passes field config v file :
  Validator.GetFile field v = Some file ->
  size_check config file = None ->
  Validator.Image field config v = Validator.Image field (with_MaxSize 0 config) v.
Proof.
  intros Hf Hs. unfold Validator.Image. rewrite Hf.
  unfold size_check in Hs.
  destruct ((0 <? MaxSize config) && (MaxSize config <? Size file)); [discriminate|].
  reflexivity.
Qed.

(** What [Image] does once the size and the extension are accepted. *)
Lemma Image_sniffs field config v file :
  Validator.GetFile field v = Some file ->
  size_check config file = None ->
  extension_check config file = None ->
  Validator.Image field config v =
  match sniff_check config file with
  | Some message => (None, Validator.set_error field message v, sniff_io file)
  | None => (Some file, v, sniff_io file)
  end.
Proof.
  intros Hf Hs He. unfold Validator.Image. rewrite Hf.
  unfold size_check in Hs.
  destruct ((0 <? MaxSize config) && (MaxSize config <? Size file)); [discriminate|].
  unfold extension_check in He.
  match goal with |- context [if ?b then _ else _] => destruct b end; [discriminate|].
  unfold sniff_check, sniff_io, type_check.
  destruct (Open file) as [f|]; [|reflexivity].
  destruct (Read_err f); try reflexivity;
    match goal with |- context [if ?b then _ else _] => destruct b end; reflexivity.
Qed.

Lemma Image_extension_fails field config v file message :
  Validator.GetFile field v = Some file ->
  size_check config file = None ->
  extension_check config file = Some message ->
  Validator.Image field config v = (None, Validator.set_error field message v, []).
Proof.
  intros Hf Hs He. unfold Validator.Image. rewrite Hf.
  unfold size_check in Hs.
  destruct ((0 <? MaxSize config) && (MaxSize config <? Size file)); [discriminate|].
  unfold extension_check in He.
  match goal with |- context [if ?b then _ else _] => destruct b end; [|discriminate].
  now injection He as <-.
Qed.

(** No message of a later check is the size message. *)
Lemma later_messages_differ config config' file message :
  extension_check config' file = Some message \/ sniff_check config' file = Some message ->
  message <> size_message config.
Proof.
  unfold extension_check, sniff_check, type_check, size_message.
  intros [He|Hm].
  - match type of He with (if ?b then _ else _) = _ => destruct b end; [|discriminate].
    injection He as <-. discriminate.
  - destruct (Open file) as [f|]; [|injection Hm as <-; discriminate].
    destruct (Read_err f); try (injection Hm as <-; discriminate);
      match type of Hm with (if ?b then _ else _) = _ => destruct b end;
      try discriminate; injection Hm as <-; discriminate.
Qed.

(** C5: for an uploaded file, the size check fails when [MaxSize > 0] and
    the size is above [MaxSize], recording the size message and returning
    nil; in every other case (a size up to [MaxSize], or a [MaxSize] of 0
    or below) [Image] behaves as with no size limit at all. On a field
    without an earlier error the size message is recorded exactly in the
    first case. *)
Theorem Image_size_check field config v file :
  Validator.GetFile field v = Some file ->
  (0 < MaxSize config /\ MaxSize config < Size file ->
   Validator.Image field config v
   = (None,
      Validator.set_error field
        ("File size exceeds maximum limit of " +:+ Sprintf_d (MaxSize config) +:+ " bytes") v,
      []))
  /\ (~ (0 < MaxSize config /\ MaxSize config < Size file) ->
      Validator.Image field config v = Validator.Image field (with_MaxSize 0 config) v)
  /\ (Validator.Errors v !! field = None ->
      (Validator.Errors (Validator.Image field config v).1.2 !! field
       = Some ("File size exceeds maximum limit of " +:+ Sprintf_d (MaxSize config) +:+ " bytes")
       <-> 0 < MaxSize config /\ MaxSize config < Size file)).
Proof.
  intros Hf. fold (size_message config).
  destruct (size_check_spec config file) as [(Hs & Hc)|(Hs & Hc)].
  - pose proof (Image_size_fails field config v file _ Hf Hs) as HI.
    repeat split; try tauto.
    rewrite HI; simpl. now rewrite lookup_insert_eq.
  - pose proof (Image_size_passes field config v file Hf Hs) as HI.
    split; [tauto|]. split; [intros _; exact HI|].
    intros Hnone. split; [|tauto]. intros Hrec. exfalso.
    destruct (extension_check config file) as [m|] eqn:He.
    + rewrite (Image_extension_fails field config v file m Hf Hs He) in Hrec.
      simpl in Hrec. rewrite lookup_insert_eq in Hrec. injection Hrec as Hm.
      exact (later_messages_differ config config file m (or_introl He) Hm).
    + rewrite (Image_sniffs field config v file Hf Hs He) in Hrec.
      destruct (sniff_check config file) as [m|] eqn:Hsn; simpl in Hrec.
      * rewrite lookup_insert_eq in Hrec. injection Hrec as Hm.
        exact (later_messages_differ config config file m (or_intror Hsn) Hm).
      * congruence.
Qed.

Lemma Image_missing field config v :
  Validator.GetFile field v = None ->
  Validator.Image field config v
  = (None, Validator.set_error field "No file was uploaded" v, []).
Proof. intros Hf. unfold Validator.Image. now rewrite Hf. Qed.

Lemma sniff_io_opens file : In EvOpen (sniff_io file).
Proof. unfold sniff_io. destruct (Open file); simpl; auto. Qed.

Lemma sniff_io_reads file :
  In EvRead (sniff_io file) <-> exists f, Open file = OpenOk f.
Proof.
  unfold sniff_io. destruct (Open file) as [f|]; simpl.
  - split; [intros _; now exists f|tauto].
  - split; [intros [E|[]]; discriminate E|intros [f E]; discriminate E].
Qed.

(** C1, as the code has it: [Image] opens the upload whenever a file is
    stored under the field and passes the size and extension checks, and
    reads it whenever that open succeeds, whatever [AllowedTypes] is. A
    failed open leaves "Could not process file" in the error map under the
    field and a failed read "Could not read file content", also with an
    empty [AllowedTypes]. Only the comparison of the sniffed type depends
    on [AllowedTypes]: with none configured a file that opens and reads is
    returned, and "Invalid file type. Allowed: ..." can only appear under
    a field when [AllowedTypes] is not empty. *)
Theorem Image_opens_after_extension_check field config v :
  (In EvOpen (Validator.Image field config v).2
   <-> exists file,
         Validator.GetFile field v = Some file
         /\ size_check config file = None
         /\ extension_check config file = None)
  /\ (In EvRead (Validator.Image field config v).2
      <-> exists file f,
            Validator.GetFile field v = Some file
            /\ size_check config file = None
            /\ extension_check config file = None
            /\ Open file = OpenOk f)
  /\ (forall file,
        Validator.GetFile field v = Some file ->
        size_check config file = None ->
        extension_check config file = None ->
        (Open file = OpenErr ->
         Validator.Image field config v
         = (None, Validator.set_error field "Could not process file" v, [EvOpen])
         /\ Validator.Errors (Validator.Image field config v).1.2 !! field
            = Some "Could not process file")
        /\ (forall f,
              Open file = OpenOk f -> Read_err f = ReadFailed ->
              Validator.Image field config v
              = (None, Validator.set_error field "Could not read file content" v,
                 [EvOpen; EvRead; EvClose])
              /\ Validator.Errors (Validator.Image field config v).1.2 !! field
                 = Some "Could not read file content")
        /\ (forall f,
              Open file = OpenOk f -> Read_err f <> ReadFailed ->
              AllowedTypes config = [] ->
              Validator.Image field config v = (Some file, v, [EvOpen; EvRead; EvClose])))
  /\ (forall file,
        Validator.GetFile field v = Some file ->
        size_check config file = None ->
        extension_check config file = None ->
        AllowedTypes config = [] ->
        Validator.Image field config v =
        match Open file with
        | OpenErr => (None, Validator.set_error field "Could not process file" v, [EvOpen])
        | OpenOk f =>
            match Read_err f with
            | ReadFailed =>
                (None, Validator.set_error field "Could not read file content" v,
                 [EvOpen; EvRead; EvClose])
            | _ => (Some file, v, [EvOpen; EvRead; EvClose])
            end
        end)
  /\ (Validator.Errors v !! field = None ->
      Validator.Errors (Validator.Image field config v).1.2 !! field
      = Some ("Invalid file type. Allowed: " +:+ Join (AllowedTypes config) ", ") ->
      AllowedTypes config <> []).
Proof.
  split; [|split; [|split; [|split]]].
  - split.
    + destruct (Validator.GetFile field v) as [file|] eqn:Hf.
      2:{ rewrite (Image_missing _ _ _ Hf). intros []. }
      destruct (size_check config file) as [m|] eqn:Hs.
      { rewrite (Image_size_fails _ _ _ _ _ Hf Hs). intros []. }
      destruct (extension_check config file) as [m|] eqn:He.
      { rewrite (Image_extension_fails _ _ _ _ _ Hf Hs He). intros []. }
      intros _. now exists file.
    + intros (file & Hf & Hs & He).
      rewrite (Image_sniffs _ _ _ _ Hf Hs He).
      destruct (sniff_check config file); simpl; apply sniff_io_opens.
  - split.
    + destruct (Validator.GetFile field v) as [file|] eqn:Hf.
      2:{ rewrite (Image_missing _ _ _ Hf). intros []. }
      destruct (size_check config file) as [m|] eqn:Hs.
      { rewrite (Image_size_fails _ _ _ _ _ Hf Hs). intros []. }
      destruct (extension_check config file) as [m|] eqn:He.
      { rewrite (Image_extension_fails _ _ _ _ _ Hf Hs He). intros []. }
      rewrite (Image_sniffs _ _ _ _ Hf Hs He). intros Hin.
      assert (Hr : In EvRead (sniff_io file))
        by (destruct (sniff_check config file); exact Hin).
      apply sniff_io_reads in Hr as [f Ho]. now exists file, f.
    + intros (file & f & Hf & Hs & He & Ho).
      rewrite (Image_sniffs _ _ _ _ Hf Hs He).
      assert (Hr : In EvRead (sniff_io file)) by (apply sniff_io_reads; now exists f).
      now destruct (sniff_check config file).
  - intros file Hf Hs He. rewrite (Image_sniffs _ _ _ _ Hf Hs He).
    unfold sniff_check, sniff_io, type_check. split; [|split].
    + intros Ho. rewrite Ho. simpl. split; [reflexivity|apply set_error_recorded].
    + intros f Ho Hr. rewrite Ho, Hr. simpl. split; [reflexivity|apply set_error_recorded].
    + intros f Ho Hr Hty. rewrite Ho, Hty. simpl.
      destruct (Read_err f); try contradiction; reflexivity.
  - intros file Hf Hs He Hty.
    rewrite (Image_sniffs _ _ _ _ Hf Hs He).
    unfold sniff_check, sniff_io, type_check. rewrite Hty.
    destruct (Open file) as [f|]; [|reflexivity].
    destruct (Read_err f); reflexivity.
  - intros Hnone Hrec Hty. rewrite Hty in Hrec. simpl in Hrec.
    destruct (Validator.GetFile field v) as [file|] eqn:Hf.
    2:{ rewrite (Image_missing _ _ _ Hf) in Hrec. simpl in Hrec.
        rewrite lookup_insert_eq in Hrec. discriminate Hrec. }
    destruct (size_check config file) as [m|] eqn:Hs.
    { rewrite (Image_size_fails _ _ _ _ _ Hf Hs) in Hrec. simpl in Hrec.
      rewrite lookup_insert_eq in Hrec. injection Hrec as ->.
      unfold size_check, size_message in Hs.
      destruct ((0 <? MaxSize config) && (MaxSize config <? Size file)); discriminate Hs. }
    destruct (extension_check config file) as [m|] eqn:He.
    { rewrite (Image_extension_fails _ _ _ _ _ Hf Hs He) in Hrec. simpl in Hrec.
      rewrite lookup_insert_eq in Hrec. injection Hrec as ->.
      unfold extension_check in He.
      match type of He with (if ?b then _ else _) = _ => destruct b end; discriminate He. }
    rewrite (Image_sniffs _ _ _ _ Hf Hs He) in Hrec.
    unfold sniff_check, type_check in Hrec. rewrite Hty in Hrec. simpl in Hrec.
    destruct (Open file) as [f|]; simpl in Hrec.
    + destruct (Read_err f); simpl in Hrec;
        try (rewrite lookup_insert_eq in Hrec; discriminate Hrec); congruence.
    + rewrite lookup_insert_eq in Hrec. discriminate Hrec.
Qed.

End ImageChecks.

(** test.txt against the default configuration: the extension check is
    the first to fail and its message is the one under the field. *)
Lemma Image_checks_in_order_witness :
  Validator.Errors
    (@Validator.Image sample_lib "avatar" (@ImageConfig sample_lib MB [])
       (Validator.SetFile "avatar"
          (Some {| Filename := "test.txt"; Size := 12;
                   Open := OpenOk {| Read_data := []; Read_err := ReadNil |} |})
          Validator.New)).1.2
  !! "avatar"
  = Some "Invalid file extension. Allowed: .jpg, .jpeg, .jpg, .jpeg, .png, .gif, .webp".
Proof.
  exact (proj1 (proj2 (@Image_checks_in_order sample_lib "avatar"
                         (@ImageConfig sample_lib MB [])
                         (Validator.SetFile "avatar"
                            (Some {| Filename := "test.txt"; Size := 12;
                                     Open := OpenOk {| Read_data := [];
                                                       Read_err := ReadNil |} |})
                            Validator.New)))).
Defined.

Lemma Image_size_check_witness :
  @Validator.Image sample_lib "avatar" (@ImageConfig sample_lib MB [])
    (Validator.SetFile "avatar"
       (Some {| Filename := "big.jpg"; Size := MB + 1; Open := OpenErr |}) Validator.New)
  = (None,
     Validator.set_error "avatar" "File size exceeds maximum limit of 1048576 bytes"
       (Validator.SetFile "avatar"
          (Some {| Filename := "big.jpg"; Size := MB + 1; Open := OpenErr |}) Validator.New),
     []).
Proof.
  apply (proj1 (@Image_size_check sample_lib "avatar" (@ImageConfig sample_lib MB [])
                  (Validator.SetFile "avatar"
                     (Some {| Filename := "big.jpg"; Size := MB + 1; Open := OpenErr |})
                     Validator.New)
                  {| Filename := "big.jpg"; Size := MB + 1; Open := OpenErr |} eq_refl)).
  split; reflexivity.
Defined.

(** With no allowed types, no allowed extensions and no size limit, an
    upload that cannot be opened is opened all the same and rejected: the
    error map reads "Could not process file" under the field. *)
Lemma Image_opens_with_empty_AllowedTypes :
  @Validator.Image sample_lib "avatar"
    {| MaxSize := 0; AllowedTypes := []; AllowedExts := [] |}
    (Validator.SetFile "avatar"
       (Some {| Filename := "photo.png"; Size := 10; Open := OpenErr |}) Validator.New)
  = (None,
     Validator.set_error "avatar" "Could not process file"
       (Validator.SetFile "avatar"
          (Some {| Filename := "photo.png"; Size := 10; Open := OpenErr |}) Validator.New),
     [EvOpen])
  /\ Validator.Errors
       (@Validator.Image sample_lib "avatar"
          {| MaxSize := 0; AllowedTypes := []; AllowedExts := [] |}
          (Validator.SetFile "avatar"
             (Some {| Filename := "photo.png"; Size := 10; Open := OpenErr |})
             Validator.New)).1.2
     !! "avatar" = Some "Could not process file"
  /\ Validator.Errors
       (Validator.SetFile "avatar"
          (Some {| Filename := "photo.png"; Size := 10; Open := OpenErr |}) Validator.New)
     !! "avatar" = None.
Proof. repeat split; reflexivity. Qed.

(** A read that fails, with no allowed type configured. *)
Lemma Image_opens_after_extension_check_witness :
  @Validator.Image sample_lib "avatar"
    {| MaxSize := 0; AllowedTypes := []; AllowedExts := [".png"] |}
    (Validator.SetFile "avatar"
       (Some {| Filename := "photo.PNG"; Size := 10;
                Open := OpenOk {| Read_data := []; Read_err := ReadFailed |} |})
       Validator.New)
  = (None,
     Validator.set_error "avatar" "Could not read file content"
       (Validator.SetFile "avatar"
          (Some {| Filename := "photo.PNG"; Size := 10;
                   Open := OpenOk {| Read_data := []; Read_err := ReadFailed |} |})
          Validator.New),
     [EvOpen; EvRead; EvClose])
  /\ Validator.Errors
       (@Validator.Image sample_lib "avatar"
          {| MaxSize := 0; AllowedTypes := []; AllowedExts := [".png"] |}
          (Validator.SetFile "avatar"
             (Some {| Filename := "photo.PNG"; Size := 10;
                      Open := OpenOk {| Read_data := []; Read_err := ReadFailed |} |})
             Validator.New)).1.2
     !! "avatar" = Some "Could not read file content".
Proof.
  refine (proj1 (proj2 (proj1 (proj2 (proj2
    (@Image_opens_after_extension_check sample_lib "avatar"
       {| MaxSize := 0; AllowedTypes := []; AllowedExts := [".png"] |}
       (Validator.SetFile "avatar"
          (Some {| Filename := "photo.PNG"; Size := 10;
                   Open := OpenOk {| Read_data := []; Read_err := ReadFailed |} |})
          Validator.New))))
    {| Filename := "photo.PNG"; Size := 10;
       Open := OpenOk {| Read_data := []; Read_err := ReadFailed |} |} _ _ _))
    {| Read_data := []; Read_err := ReadFailed |} _ _);
    reflexivity.
Defined.

(** ** [ImageConfig] *)

Section Config.
Context `{GoLib}.

Lemma ImageConfig_loop_expansion formats mimeTypes extensions :
  ImageConfig_loop formats mimeTypes extensions
  = (mimeTypes ++ flat_map (fun f => (expansion f).1) formats,
     extensions ++ flat_map (fun f => (expansion f).2) formats).
Proof.
  revert mimeTypes extensions.
  induction formats as [|f fs IH]; intros ms es; simpl.
  - now rewrite !app_nil_r.
  - unfold expansion at 1 3; simpl.
    destruct (String.eqb (ToLower f) "jpg"); simpl;
      [rewrite IH, <- !app_assoc; reflexivity|].
    destruct (String.eqb (ToLower f) "jpeg"); simpl;
      [rewrite IH, <- !app_assoc; reflexivity|].
    destruct (String.eqb (ToLower f) "png"); simpl;
      [rewrite IH, <- !app_assoc; reflexivity|].
    destruct (String.eqb (ToLower f) "gif"); simpl;
      [rewrite IH, <- !app_assoc; reflexivity|].
    destruct (String.eqb (ToLower f) "webp"); simpl;
      [rewrite IH, <- !app_assoc; reflexivity|].
    apply IH.
Qed.

Lemma byte_val_bound c : 0 <= byte_val c < 256.
Proof.
  unfold byte_val. pose proof (N_ascii_bounded c). lia.
Qed.

Lemma byte_of_val_inv c : byte_of_val (byte_val c) = c.
Proof. unfold byte_of_val, byte_val. rewrite N2Z.id. apply ascii_N_embedding. Qed.

Lemma byte_val_of_val n : 0 <= n < 256 -> byte_val (byte_of_val n) = n.
Proof.
  intros Hn. unfold byte_of_val, byte_val.
  rewrite N_ascii_embedding by lia. lia.
Qed.

(** Lower-casing undoes the upper-casing of a lower-case letter. *)
Lemma lower_upper_byte b :
  is_ascii b = true -> is_upper b = false ->
  is_ascii (upper_byte b) = true /\ lower_byte (upper_byte b) = b.
Proof.
  unfold is_ascii, is_upper, upper_byte, lower_byte, is_upper, is_lower, RuneSelf.
  change (byte_val "a") with 97. change (byte_val "A") with 65. change (byte_val "Z") with 90.
  change (byte_val "z") with 122.
  intros Ha Hu. pose proof (byte_val_bound b) as Hb.
  destruct ((97 <=? byte_val b) && (byte_val b <=? 122)) eqn:Hl.
  - apply andb_true_iff in Hl as [H1 H2].
    rewrite byte_val_of_val by lia.
    replace ((65 <=? byte_val b - (97 - 65)) && (byte_val b - (97 - 65) <=? 90)) with true
      by (symmetry; apply andb_true_iff; lia).
    split; [lia|].
    replace (byte_val b - (97 - 65) + (97 - 65)) with (byte_val b) by lia.
    apply byte_of_val_inv.
  - rewrite Ha, Hu. auto.
Qed.

(** A case variant of a lower-case ASCII name lower-cases to the name. *)
Lemma ToLower_case_variant s name :
  string_forallb (fun b => is_ascii b && negb (is_upper b)) name = true ->
  case_variant s name = true ->
  ToLower s = name.
Proof.
  intros Hn Hv.
  assert (Hboth : string_forallb is_ascii s = true /\ string_map lower_byte s = name).
  { revert name Hn Hv. induction s as [|a s IH]; intros [|b name] Hn Hv;
      simpl in *; try discriminate; [auto|].
    apply andb_true_iff in Hn as [Hb Hn]. apply andb_true_iff in Hb as [Hba Hbu].
    apply negb_true_iff in Hbu.
    apply andb_true_iff in Hv as [Hab Hv].
    destruct (IH name Hn Hv) as [IH1 IH2].
    assert (is_ascii a = true /\ lower_byte a = b) as [Ha1 Ha2].
    { apply orb_true_iff in Hab as [E|E]; apply Ascii.eqb_eq in E; subst a.
      - split; [assumption|]. unfold lower_byte. now rewrite Hbu.
      - now apply lower_upper_byte. }
    rewrite Ha1, IH1, Ha2, IH2. auto. }
  destruct Hboth as [H1 H2]. unfold ToLower. now rewrite H1.
Qed.

(** C6: [ImageConfig] keeps [maxSize] and expands the formats, the five
    default ones when none is given, in order: a name that is jpg or jpeg
    up to the case of its letters adds image/jpeg with .jpg and .jpeg, png
    adds image/png with .png, gif adds image/gif with .gif, webp adds
    image/webp with .webp, and a name whose lower-cased form is none of
    these adds nothing. *)
Theorem ImageConfig_expands_formats maxSize formats :
  ImageConfig maxSize formats
  = (let formats :=
       match formats with [] => ["jpg"; "jpeg"; "png"; "gif"; "webp"] | _ => formats end in
     {| MaxSize := maxSize;
        AllowedTypes := flat_map (fun f => (expansion f).1) formats;
        AllowedExts := flat_map (fun f => (expansion f).2) formats |})
  /\ (forall f, case_variant f "jpg" = true \/ case_variant f "jpeg" = true ->
                expansion f = (["image/jpeg"], [".jpg"; ".jpeg"]))
  /\ (forall f, case_variant f "png" = true -> expansion f = (["image/png"], [".png"]))
  /\ (forall f, case_variant f "gif" = true -> expansion f = (["image/gif"], [".gif"]))
  /\ (forall f, case_variant f "webp" = true -> expansion f = (["image/webp"], [".webp"]))
  /\ (forall f, ~ In (ToLower f) ["jpg"; "jpeg"; "png"; "gif"; "webp"] ->
                expansion f = ([], [])).
Proof.
  split; [|repeat split].
  - unfold ImageConfig. rewrite ImageConfig_loop_expansion.
    destruct formats; reflexivity.
  - intros f [Hv|Hv]; apply ToLower_case_variant in Hv; try reflexivity;
      unfold expansion; now rewrite Hv.
  - intros f Hv. apply ToLower_case_variant in Hv; [|reflexivity].
    unfold expansion. now rewrite Hv.
  - intros f Hv. apply ToLower_case_variant in Hv; [|reflexivity].
    unfold expansion. now rewrite Hv.
  - intros f Hv. apply ToLower_case_variant in Hv; [|reflexivity].
    unfold expansion. now rewrite Hv.
  - intros f Hn. unfold expansion; simpl.
    repeat match goal with
           | |- context [String.eqb (ToLower f) ?n] =>
               destruct (String.eqb_spec (ToLower f) n) as [E|_];
               [exfalso; apply Hn; rewrite E; simpl; tauto|]
           end.
    reflexivity.
Qed.

End Config.

Lemma ImageConfig_expands_formats_witness :
  @expansion sample_lib "JPeG" = (["image/jpeg"], [".jpg"; ".jpeg"]).
Proof.
  apply (proj1 (proj2 (@ImageConfig_expands_formats sample_lib MB ["JPeG"])) "JPeG").
  right. reflexivity.
Defined.

Example ImageConfig_default :
  @ImageConfig sample_lib MB []
  = {| MaxSize := 1048576;
       AllowedTypes := ["image/jpeg"; "image/jpeg"; "image/png"; "image/gif"; "image/webp"];
       AllowedExts := [".jpg"; ".jpeg"; ".jpg"; ".jpeg"; ".png"; ".gif"; ".webp"] |}.
Proof. reflexivity. Qed.

Example ImageConfig_drops_unknown :
  @ImageConfig sample_lib MB ["PNG"; "bmp"; "Gif"]
  = {| MaxSize := 1048576;
       AllowedTypes := ["image/png"; "image/gif"];
       AllowedExts := [".png"; ".gif"] |}.
Proof. reflexivity. Qed.

(** ** [Boolean] *)

Section Booleans.
Context `{GoLib}.

Lemma existsb_eqb_In (s : string) (l : list string) :
  existsb (String.eqb s) l = true <-> In s l.
Proof.
  rewrite existsb_exists. split.
  - intros (x & Hx & E). apply String.eqb_eq in E. now subst.
  - intros Hin. exists s. split; [assumption|apply String.eqb_refl].
Qed.

Lemma ParseBool_ok str :
  snd (ParseBool str) = None <-> In str ParseBool_tokens.
Proof.
  unfold ParseBool, ParseBool_tokens.
  change ["1"; "t"; "T"; "true"; "TRUE"; "True"; "0"; "f"; "F"; "false"; "FALSE"; "False"]
    with (["1"; "t"; "T"; "true"; "TRUE"; "True"] ++ ["0"; "f"; "F"; "false"; "FALSE"; "False"]).
  rewrite in_app_iff, <- !existsb_eqb_In.
  destruct (existsb (String.eqb str) ["1"; "t"; "T"; "true"; "TRUE"; "True"]);
    destruct (existsb (String.eqb str) ["0"; "f"; "F"; "false"; "FALSE"; "False"]);
    simpl; split; intros; try tauto; try discriminate.
  destruct H0; discriminate.
Qed.

(** C7, as the code has it: [Boolean] lower-cases and trims the value and
    passes when the result is one of the tokens [strconv.ParseBool]
    accepts (1, t, T, true, TRUE, True, 0, f, F, false, FALSE, False);
    on every other result, yes and no among them, it fails with "This
    field must be true or false". *)
Theorem Boolean_accepts_ParseBool_tokens field value :
  ((In (TrimSpace (ToLower value))
      ["1"; "t"; "T"; "true"; "TRUE"; "True"; "0"; "f"; "F"; "false"; "FALSE"; "False"]
    /\ Boolean field value = (true, ""))
   \/ (~ In (TrimSpace (ToLower value))
         ["1"; "t"; "T"; "true"; "TRUE"; "True"; "0"; "f"; "F"; "false"; "FALSE"; "False"]
       /\ Boolean field value = (false, "This field must be true or false")))
  /\ (In (TrimSpace (ToLower value)) ["yes"; "no"] ->
      Boolean field value = (false, "This field must be true or false")).
Proof.
  fold ParseBool_tokens. unfold Boolean.
  pose proof (ParseBool_ok (TrimSpace (ToLower value))) as Hok.
  split.
  - destruct (snd (ParseBool (TrimSpace (ToLower value)))) as [e|].
    + right. split; [|reflexivity]. intros Hin. apply Hok in Hin. discriminate.
    + left. split; [now apply Hok|reflexivity].
  - intros [E|[E|[]]]; rewrite <- E; reflexivity.
Qed.

End Booleans.

Lemma Boolean_accepts_ParseBool_tokens_witness :
  @Boolean sample_lib "agree" " Yes " = (false, "This field must be true or false").
Proof.
  apply (proj2 (@Boolean_accepts_ParseBool_tokens sample_lib "agree" " Yes ")).
  left. reflexivity.
Defined.

(** The values yes and no do not pass. *)
Lemma Boolean_rejects_yes_and_no :
  @Boolean sample_lib "agree" "yes" = (false, "This field must be true or false")
  /\ @Boolean sample_lib "agree" "no" = (false, "This field must be true or false").
Proof. split; reflexivity. Qed.

Example Boolean_trims_and_lowers :
  @Boolean sample_lib "agree" "  TRUE " = (true, "")
  /\ @Boolean sample_lib "agree" "F" = (true, "")
  /\ @Boolean sample_lib "agree" "1" = (true, "")
  /\ @Boolean sample_lib "agree" "on" = (false, "This field must be true or false").
Proof. repeat split; reflexivity. Qed.

(** ** [MinLength] and the rune count *)

Lemma rune_width_1 b0 rest :
  byte_val b0 < 0x80 -> rune_width b0 rest = 1%nat.
Proof. intros Hb. unfold rune_width, RuneSelf. now decide_tests. Qed.

Lemma rune_width_2 b0 b1 rest :
  0xC2 <= byte_val b0 <= 0xDF ->
  0x80 <= byte_val b1 <= 0xBF ->
  rune_width b0 (String b1 rest) = 2%nat.
Proof.
  intros H0 H1. unfold rune_width, RuneSelf, first. decide_tests; simpl.
  unfold in_range. now decide_tests.
Qed.

Lemma rune_width_3 b0 b1 b2 rest :
  0xE0 <= byte_val b0 <= 0xEF ->
  0x80 <= byte_val b1 <= 0xBF ->
  (byte_val b0 = 0xE0 -> 0xA0 <= byte_val b1) ->
  (byte_val b0 = 0xED -> byte_val b1 <= 0x9F) ->
  0x80 <= byte_val b2 <= 0xBF ->
  rune_width b0 (String b1 (String b2 rest)) = 3%nat.
Proof.
  intros H0 H1 Hlo Hhi H2. unfold rune_width, RuneSelf, first.
  decide_tests; simpl; unfold is_cont, in_range; now decide_tests.
Qed.

Lemma rune_width_4 b0 b1 b2 b3 rest :
  0xF0 <= byte_val b0 <= 0xF4 ->
  0x80 <= byte_val b1 <= 0xBF ->
  (byte_val b0 = 0xF0 -> 0x90 <= byte_val b1) ->
  (byte_val b0 = 0xF4 -> byte_val b1 <= 0x8F) ->
  0x80 <= byte_val b2 <= 0xBF ->
  0x80 <= byte_val b3 <= 0xBF ->
  rune_width b0 (String b1 (String b2 (String b3 rest))) = 4%nat.
Proof.
  intros H0 H1 Hlo Hhi H2 H3. unfold rune_width, RuneSelf, first.
  decide_tests; simpl; unfold is_cont, in_range; now decide_tests.
Qed.

Lemma append_String a s t : String a s +:+ t = String a (s +:+ t).
Proof. reflexivity. Qed.

Lemma append_Empty t : "" +:+ t = t.
Proof. reflexivity. Qed.

(** The encoding of a scalar value is counted as one rune. *)
Lemma rune_count_encode_rune r s :
  scalar_value r ->
  rune_count_loop (encode_rune r +:+ s) 0 = 1 + rune_count_loop s 0.
Proof.
  intros Hr. unfold scalar_value in Hr. unfold encode_rune.
  destruct (Z.ltb_spec r 0x80); [|destruct (Z.ltb_spec r 0x800);
                                   [|destruct (Z.ltb_spec r 0x10000)]];
    rewrite ?append_String, append_Empty; cbn [rune_count_loop].
  - rewrite rune_width_1; [reflexivity|]. rewrite byte_val_of_val; lia.
  - rewrite rune_width_2; [reflexivity| |];
      rewrite byte_val_of_val; Z.to_euclidean_division_equations; lia.
  - rewrite rune_width_3; [reflexivity|..];
      rewrite ?byte_val_of_val; Z.to_euclidean_division_equations; lia.
  - rewrite rune_width_4; [reflexivity|..];
      rewrite ?byte_val_of_val; Z.to_euclidean_division_equations; lia.
Qed.

Lemma RuneCountInString_utf8_encode cps :
  Forall scalar_value cps ->
  RuneCountInString (utf8_encode cps) = Z.of_nat (length cps).
Proof.
  unfold RuneCountInString.
  induction 1 as [|r cps Hr _ IH]; [reflexivity|].
  cbn [utf8_encode length]. rewrite rune_count_encode_rune by assumption.
  rewrite IH. lia.
Qed.

(** C8: [MinLength min] fails, with "This field must be at least {min}
    characters long", exactly when the rune count of the value is below
    [min], and passes from a count of [min] on; the rune count of a string
    that encodes a sequence of code points is the number of code points,
    not the number of bytes. *)
Theorem MinLength_counts_code_points min field v :
  (MinLength min field v
   = (false, "This field must be at least " +:+ Sprintf_d min +:+ " characters long")
   <-> RuneCountInString v < min)
  /\ (MinLength min field v = (true, "") <-> min <= RuneCountInString v)
  /\ (forall cps,
        Forall scalar_value cps -> v = utf8_encode cps ->
        RuneCountInString v = Z.of_nat (length cps)).
Proof.
  unfold MinLength.
  destruct (Z.ltb_spec (RuneCountInString v) min) as [Hlt|Hge].
  - repeat split; try (intros; lia || discriminate || reflexivity).
    intros cps Hcps ->. now apply RuneCountInString_utf8_encode.
  - repeat split; try (intros; lia || discriminate || reflexivity).
    intros cps Hcps ->. now apply RuneCountInString_utf8_encode.
Qed.

Lemma MinLength_counts_code_points_witness :
  RuneCountInString (utf8_encode [104; 233; 8364; 128512]) = 4.
Proof.
  apply (proj2 (proj2 (MinLength_counts_code_points 5 "name"
                         (utf8_encode [104; 233; 8364; 128512])))
           [104; 233; 8364; 128512]).
  - repeat constructor; unfold scalar_value; lia.
  - reflexivity.
Defined.

(** Two code points in four bytes are too short for a minimum of three. *)
Example MinLength_not_bytes :
  String.length (utf8_encode [233; 233]) = 4%nat
  /\ MinLength 3 "name" (utf8_encode [233; 233])
     = (false, "This field must be at least 3 characters long")
  /\ MinLength 2 "name" (utf8_encode [233; 233]) = (true, "").
Proof. repeat split; reflexivity. Qed.

(** ** The upload of the package's own test *)

(** test.txt against the default image configuration: the extension check
    rejects it and the upload is not opened. *)
Example Image_invalid_extension :
  @Validator.Image sample_lib "avatar" (@ImageConfig sample_lib MB [])
    (Validator.SetFile "avatar"
       (Some {| Filename := "test.txt"; Size := 12;
                Open := OpenOk {| Read_data := []; Read_err := ReadNil |} |})
       Validator.New)
  = (None,
     Validator.set_error "avatar"
       "Invalid file extension. Allowed: .jpg, .jpeg, .jpg, .jpeg, .png, .gif, .webp"
       (Validator.SetFile "avatar"
          (Some {| Filename := "test.txt"; Size := 12;
                   Open := OpenOk {| Read_data := []; Read_err := ReadNil |} |})
          Validator.New),
     []).
Proof. reflexivity. Qed.

(** * Further properties of the validator *)

(** ** The two stores *)

(** X1: a value set under a field is the value read back under it, the
    values of the other fields stay, and neither the errors nor the files
    are touched; a second [SetValue] on the field replaces the first. *)
Theorem SetValue_GetValue field value other v :
  Validator.GetValue field (Validator.SetValue field value v) = value
  /\ (other <> field ->
      Validator.GetValue other (Validator.SetValue field value v)
      = Validator.GetValue other v)
  /\ Validator.Errors (Validator.SetValue field value v) = Validator.Errors v
  /\ Validator.files (Validator.SetValue field value v) = Validator.files v
  /\ (forall value', Validator.SetValue field value' (Validator.SetValue field value v)
                     = Validator.SetValue field value' v).
Proof.
  unfold Validator.GetValue, Validator.SetValue; simpl. repeat split.
  - now rewrite lookup_insert_eq.
  - intros Hne. now rewrite lookup_insert_ne.
  - intros value'. now rewrite insert_insert_eq.
Qed.

Lemma SetValue_GetValue_witness :
  Validator.GetValue "email"
    (Validator.SetValue "name" "John" (Validator.SetValue "email" "john@example.com" Validator.New))
  = Validator.GetValue "email" (Validator.SetValue "email" "john@example.com" Validator.New).
Proof.
  apply (proj1 (proj2 (SetValue_GetValue "name" "John" "email"
                         (Validator.SetValue "email" "john@example.com" Validator.New)))).
  discriminate.
Defined.

(** X2: a file set under a field is the file read back under it (nil
    when nil was set), the files of the other fields stay, and neither the
    errors nor the values are touched. *)
Theorem SetFile_GetFile field file other v :
  Validator.GetFile field (Validator.SetFile field file v) = file
  /\ (other <> field ->
      Validator.GetFile other (Validator.SetFile field file v)
      = Validator.GetFile other v)
  /\ Validator.Errors (Validator.SetFile field file v) = Validator.Errors v
  /\ Validator.values (Validator.SetFile field file v) = Validator.values v.
Proof.
  unfold Validator.GetFile, Validator.SetFile; simpl. repeat split.
  - now rewrite lookup_insert_eq.
  - intros Hne. now rewrite lookup_insert_ne.
Qed.

Lemma SetFile_GetFile_witness :
  Validator.GetFile "avatar"
    (Validator.SetFile "banner" None
       (Validator.SetFile "avatar"
          (Some {| Filename := "a.png"; Size := 1; Open := OpenErr |}) Validator.New))
  = Validator.GetFile "avatar"
      (Validator.SetFile "avatar"
         (Some {| Filename := "a.png"; Size := 1; Open := OpenErr |}) Validator.New).
Proof.
  apply (proj1 (proj2 (SetFile_GetFile "banner" None "avatar"
                         (Validator.SetFile "avatar"
                            (Some {| Filename := "a.png"; Size := 1; Open := OpenErr |})
                            Validator.New)))).
  discriminate.
Defined.

(** ** [Valid] and [Check] *)

Lemma Valid_set_error field message v :
  Validator.Valid (Validator.set_error field message v) = false.
Proof.
  unfold Validator.Valid, Validator.set_error; simpl.
  apply Nat.eqb_neq. rewrite map_size_non_empty_iff.
  apply insert_non_empty.
Qed.

Lemma Valid_true_iff v :
  Validator.Valid v = true <-> Validator.Errors v = ∅.
Proof.
  unfold Validator.Valid. rewrite Nat.eqb_eq. apply map_size_empty_iff.
Qed.

(** X3: a new validator is valid; a validator is valid exactly when no
    field has an error; after [Check] it is valid exactly when it was
    valid and the condition held, and a failed [Check] leaves its message
    under the field, over whatever was there. *)
Theorem Check_Valid ok field message v :
  Validator.Valid Validator.New = true
  /\ (Validator.Valid v = true <-> forall f, Validator.Errors v !! f = None)
  /\ Validator.Valid (Validator.Check ok field message v) = ok && Validator.Valid v
  /\ (ok = false ->
      Validator.Errors (Validator.Check ok field message v) !! field = Some message)
  /\ (ok = true -> Validator.Check ok field message v = v).
Proof.
  repeat split.
  - rewrite Valid_true_iff. intros ->. intros f. apply lookup_empty.
  - intros Hall. apply Valid_true_iff. apply map_eq. intros f.
    now rewrite Hall, lookup_empty.
  - destruct ok; simpl; [reflexivity|]. apply Valid_set_error.
  - intros ->. simpl. now rewrite lookup_insert_eq.
  - now intros ->.
Qed.

Lemma Check_Valid_witness :
  Validator.Errors
    (Validator.Check false "age" "Too young"
       (Validator.set_error "age" "This field is required" Validator.New))
  !! "age" = Some "Too young".
Proof.
  apply (proj1 (proj2 (proj2 (proj2
    (Check_Valid false "age" "Too young"
       (Validator.set_error "age" "This field is required" Validator.New)))))).
  reflexivity.
Defined.

(** ** What a validating call leaves alone *)

(** [v'] differs from [v] at most in the error of [field]. *)
Definition only_error_of (field : string) (v v' : Validator.t) : Prop :=
  Validator.values v' = Validator.values v
  /\ Validator.files v' = Validator.files v
  /\ forall other, other <> field ->
       Validator.Errors v' !! other = Validator.Errors v !! other.

Lemma only_error_of_cases field v v' :
  v' = v \/ (exists message, v' = Validator.set_error field message v) ->
  only_error_of field v v'.
Proof.
  intros [->|[m ->]]; unfold only_error_of; simpl; repeat split; try reflexivity.
  intros other Hne. now rewrite lookup_insert_ne.
Qed.

Section Frame.
Context `{GoLib}.

(** X4: [String], [Int], [Image] and [Check] change neither the stored
    values nor the stored files, and among the errors they change at most
    the one of the field they are called on. *)
Theorem accessors_touch_only_their_field field validations config ok message v :
  only_error_of field v (Validator.String field validations v).1.2
  /\ only_error_of field v (Validator.Int field validations v).1.2
  /\ only_error_of field v (Validator.Image field config v).1.2
  /\ only_error_of field v (Validator.Check ok field message v).
Proof.
  split; [|split; [|split]]; apply only_error_of_cases.
  - apply String_cases.
  - apply Int_cases.
  - apply Image_cases.
  - destruct ok; simpl; eauto.
Qed.

End Frame.

(** ** [Required] and [Boolean] on ASCII values *)

Lemma string_forallb_rev_app p s t :
  string_forallb p (String.rev_app s t) = string_forallb p s && string_forallb p t.
Proof.
  revert t. induction s as [|c s IH]; intros t; simpl; [reflexivity|].
  rewrite IH. simpl. now rewrite andb_assoc, (andb_comm (string_forallb p s) (p c)).
Qed.

Lemma string_forallb_rev p s :
  string_forallb p (String.rev s) = string_forallb p s.
Proof. unfold String.rev. rewrite string_forallb_rev_app. simpl. apply andb_true_r. Qed.

Lemma rev_app_empty s t : String.rev_app s t = "" -> s = "" /\ t = "".
Proof.
  revert t. induction s as [|c s IH]; intros t; simpl; [auto|].
  intros E. apply IH in E as [_ E]. discriminate.
Qed.

Lemma asciiSpace_is_ascii c : asciiSpace c = true -> is_ascii c = true.
Proof.
  destruct c as [[] [] [] [] [] [] [] []]; simpl; intros E; try discriminate E; reflexivity.
Qed.

(** The scan stops with nothing left exactly on strings of ASCII space. *)
Lemma trim_scan_empty_iff s :
  (trim_scan s).1 = "" <-> string_forallb asciiSpace s = true.
Proof.
  induction s as [|c s IH]; simpl; [tauto|].
  destruct (asciiSpace c) eqn:Hsp.
  - rewrite (asciiSpace_is_ascii c Hsp). simpl. exact IH.
  - destruct (is_ascii c); simpl; split; discriminate.
Qed.

Lemma trim_scan_ascii s :
  string_forallb is_ascii s = true -> (trim_scan s).2 = false.
Proof.
  induction s as [|c s IH]; simpl; [reflexivity|].
  intros Ha. apply andb_true_iff in Ha as [Hc Hs]. rewrite Hc; simpl.
  destruct (asciiSpace c); [now apply IH|reflexivity].
Qed.

(** The scan returns a suffix, so what holds of every byte still holds. *)
Lemma trim_scan_forallb p s :
  string_forallb p s = true -> string_forallb p (trim_scan s).1 = true.
Proof.
  induction s as [|c s IH]; simpl; [reflexivity|].
  intros Hp. pose proof Hp as Hp'. apply andb_true_iff in Hp' as [Hc Hs].
  destruct (is_ascii c); simpl; [|exact Hp].
  destruct (asciiSpace c); [now apply IH|exact Hp].
Qed.

(** What is left after the scan does not start with ASCII space. *)
Lemma trim_scan_head s c t :
  (trim_scan s).1 = String c t -> asciiSpace c = false \/ is_ascii c = false.
Proof.
  induction s as [|a s IH]; simpl; [discriminate|].
  destruct (is_ascii a) eqn:Ha; simpl.
  - destruct (asciiSpace a) eqn:Hsp; [exact IH|].
    intros E. injection E as <- _. now left.
  - intros E. injection E as <- _. now right.
Qed.

Section AsciiValues.
Context `{GoLib}.

(** On an ASCII string [TrimSpace] never reaches the Unicode paths. *)
Lemma TrimSpace_ascii s :
  string_forallb is_ascii s = true ->
  TrimSpace s = String.rev (trim_scan (String.rev (trim_scan s).1)).1.
Proof.
  intros Ha. unfold TrimSpace.
  pose proof (trim_scan_ascii s Ha) as H1.
  pose proof (trim_scan_forallb is_ascii s Ha) as H2.
  destruct (trim_scan s) as [s1 uni]; simpl in *. subst uni.
  rewrite <- (string_forallb_rev is_ascii s1) in H2.
  pose proof (trim_scan_ascii _ H2) as H3.
  destruct (trim_scan (String.rev s1)) as [r uni']; simpl in *. now subst uni'.
Qed.

Lemma TrimSpace_ascii_forallb p s :
  string_forallb is_ascii s = true ->
  string_forallb p s = true ->
  string_forallb p (TrimSpace s) = true.
Proof.
  intros Ha Hp. rewrite TrimSpace_ascii by assumption.
  rewrite string_forallb_rev. apply trim_scan_forallb.
  rewrite string_forallb_rev. now apply trim_scan_forallb.
Qed.

Lemma TrimSpace_ascii_empty_iff s :
  string_forallb is_ascii s = true ->
  TrimSpace s = "" <-> string_forallb asciiSpace s = true.
Proof.
  intros Ha. rewrite TrimSpace_ascii by assumption. split.
  - intros E. apply rev_app_empty in E as [E _].
    apply trim_scan_empty_iff in E. rewrite string_forallb_rev in E.
    destruct (trim_scan s).1 as [|c t] eqn:Es1.
    + now apply trim_scan_empty_iff.
    + exfalso. pose proof (trim_scan_forallb is_ascii s Ha) as Hasc.
      rewrite Es1 in Hasc. simpl in Hasc, E.
      apply andb_true_iff in Hasc as [Hc _]. apply andb_true_iff in E as [Hsp _].
      destruct (trim_scan_head s c t Es1); congruence.
  - intros Hsp. apply trim_scan_empty_iff in Hsp. now rewrite Hsp.
Qed.

(** X5: on an ASCII value [Required] fails, with "This field is
    required", exactly when every byte of the value is one of tab, line
    feed, vertical tab, form feed, carriage return and space (the empty
    value among them), and passes otherwise. *)
Theorem Required_ascii field value :
  string_forallb is_ascii value = true ->
  (Required field value = (false, "This field is required")
   <-> string_forallb asciiSpace value = true)
  /\ (Required field value = (true, "")
      <-> string_forallb asciiSpace value = false).
Proof.
  intros Ha. pose proof (TrimSpace_ascii_empty_iff value Ha) as Hiff.
  unfold Required.
  destruct (String.eqb_spec (TrimSpace value) "") as [E|E].
  - apply Hiff in E. rewrite E. repeat split; intros; discriminate || reflexivity.
  - assert (Hf : string_forallb asciiSpace value = false)
      by (destruct (string_forallb asciiSpace value); [tauto|reflexivity]).
    rewrite Hf. repeat split; intros; discriminate || reflexivity.
Qed.

End AsciiValues.

Lemma Required_ascii_witness :
  @Required sample_lib "name" "  John Doe " = (true, "").
Proof.
  apply (proj2 (@Required_ascii sample_lib "name" "  John Doe " eq_refl)).
  reflexivity.
Defined.

Lemma lower_byte_lowered c :
  is_ascii c = true ->
  is_ascii (lower_byte c) && negb (is_upper (lower_byte c)) = true.
Proof.
  unfold is_ascii, lower_byte, is_upper, RuneSelf.
  change (byte_val "a") with 97. change (byte_val "A") with 65. change (byte_val "Z") with 90.
  intros Ha. pose proof (byte_val_bound c) as Hb.
  destruct ((65 <=? byte_val c) && (byte_val c <=? 90)) eqn:Hu.
  - apply andb_true_iff in Hu as [H1 H2].
    rewrite byte_val_of_val by lia.
    apply andb_true_iff. split; [lia|].
    apply negb_true_iff, andb_false_iff. right. lia.
  - now rewrite Ha, Hu.
Qed.

Lemma string_map_lower_byte_lowered s :
  string_forallb is_ascii s = true ->
  string_forallb (fun b => is_ascii b && negb (is_upper b)) (string_map lower_byte s) = true.
Proof.
  induction s as [|c s IH]; simpl; [reflexivity|].
  intros Ha. apply andb_true_iff in Ha as [Hc Hs].
  now rewrite lower_byte_lowered, IH.
Qed.

Lemma string_forallb_impl (p q : ascii -> bool) s :
  (forall c, p c = true -> q c = true) ->
  string_forallb p s = true -> string_forallb q s = true.
Proof.
  intros Hpq. induction s as [|c s IH]; simpl; [reflexivity|].
  intros Hp. apply andb_true_iff in Hp as [Hc Hs].
  now rewrite (Hpq c Hc), IH.
Qed.

Section AsciiBooleans.
Context `{GoLib}.

(** The token [Boolean] hands to [ParseBool], for an ASCII value, is an
    ASCII string without upper-case letters. *)
Lemma Boolean_token_lowered value :
  string_forallb is_ascii value = true ->
  string_forallb (fun b => is_ascii b && negb (is_upper b)) (TrimSpace (ToLower value)) = true.
Proof.
  intros Ha. unfold ToLower. rewrite Ha.
  pose proof (string_map_lower_byte_lowered value Ha) as Hl.
  apply TrimSpace_ascii_forallb; [|exact Hl].
  revert Hl. apply string_forallb_impl. intros c Hc.
  now apply andb_true_iff in Hc as [Hc _].
Qed.

(** X6: on an ASCII value [Boolean] passes exactly when the lower-cased,
    trimmed value is one of 1, t, true, 0, f, false, and fails with "This
    field must be true or false" otherwise: the upper-case tokens of
    [ParseBool] are never what it is asked about. *)
Theorem Boolean_ascii field value :
  string_forallb is_ascii value = true ->
  (Boolean field value = (true, "")
   <-> In (TrimSpace (ToLower value)) ["1"; "t"; "true"; "0"; "f"; "false"])
  /\ (Boolean field value = (false, "This field must be true or false")
      <-> ~ In (TrimSpace (ToLower value)) ["1"; "t"; "true"; "0"; "f"; "false"]).
Proof.
  intros Ha. pose proof (Boolean_token_lowered value Ha) as Hl.
  pose proof (ParseBool_ok (TrimSpace (ToLower value))) as Hok.
  unfold Boolean.
  assert (Hsix : In (TrimSpace (ToLower value)) ParseBool_tokens
                 <-> In (TrimSpace (ToLower value)) ["1"; "t"; "true"; "0"; "f"; "false"]).
  { unfold ParseBool_tokens. split.
    - intros Hin. simpl in Hin.
      repeat (destruct Hin as [E|Hin];
              [rewrite <- E in Hl |- *; first [discriminate Hl | simpl; tauto]|]).
      destruct Hin.
    - simpl. tauto. }
  destruct (snd (ParseBool (TrimSpace (ToLower value)))) as [e|].
  - assert (Hn : ~ In (TrimSpace (ToLower value)) ["1"; "t"; "true"; "0"; "f"; "false"]).
    { intros Hin. apply Hsix, Hok in Hin. discriminate. }
    repeat split; intros; try discriminate; try reflexivity; tauto.
  - assert (Hy : In (TrimSpace (ToLower value)) ["1"; "t"; "true"; "0"; "f"; "false"])
      by (apply Hsix, Hok; reflexivity).
    repeat split; intros; try discriminate; try reflexivity; tauto.
Qed.

End AsciiBooleans.

Lemma Boolean_ascii_witness :
  @Boolean sample_lib "agree" "	 True " = (true, "").
Proof.
  apply (proj1 (@Boolean_ascii sample_lib "agree" "	 True " eq_refl)).
  right; right; left. reflexivity.
Defined.

(** ** The rune count and the two length validators *)

Lemma rune_width_bounds c rest : (1 <= rune_width c rest <= 4)%nat.
Proof.
  unfold rune_width.
  repeat match goal with
         | |- context [if ?b then _ else _] => destruct b
         | |- context [match ?x with _ => _ end] => destruct x
         end; lia.
Qed.

Lemma rune_count_loop_bounds s skip :
  (skip <= 3)%nat ->
  0 <= rune_count_loop s skip <= Z.of_nat (String.length s)
  /\ Z.of_nat (String.length s) <= Z.of_nat skip + 4 * rune_count_loop s skip.
Proof.
  revert skip. induction s as [|c s IH]; intros skip Hs; simpl String.length.
  - simpl. lia.
  - cbn [rune_count_loop]. destruct skip as [|k].
    + pose proof (rune_width_bounds c s) as Hw.
      destruct (IH (rune_width c s - 1)%nat ltac:(lia)) as [H1 H2]. lia.
    + destruct (IH k ltac:(lia)) as [H1 H2]. lia.
Qed.

Lemma rune_count_loop_ascii s :
  string_forallb is_ascii s = true ->
  rune_count_loop s 0 = Z.of_nat (String.length s).
Proof.
  induction s as [|c s IH]; [reflexivity|].
  simpl string_forallb. intros Ha. apply andb_true_iff in Ha as [Hc Hs].
  cbn [rune_count_loop String.length]. rewrite rune_width_1.
  - simpl. rewrite (IH Hs). lia.
  - unfold is_ascii, RuneSelf in Hc. lia.
Qed.

(** X7: the rune count of a string lies between a quarter of its byte
    length and its byte length, and is the byte length for an ASCII
    string. So [MinLength min] fails every value of fewer than [min] bytes
    and [MaxLength max] passes every value of at most [max] bytes. *)
Theorem RuneCountInString_bounds field n value :
  (0 <= RuneCountInString value <= Z.of_nat (String.length value)
   /\ Z.of_nat (String.length value) <= 4 * RuneCountInString value)
  /\ (string_forallb is_ascii value = true ->
      RuneCountInString value = Z.of_nat (String.length value))
  /\ (Z.of_nat (String.length value) < n -> (MinLength n field value).1 = false)
  /\ (Z.of_nat (String.length value) <= n -> MaxLength n field value = (true, "")).
Proof.
  unfold MinLength, MaxLength; unfold RuneCountInString.
  destruct (rune_count_loop_bounds value 0 ltac:(lia)) as [H1 H2].
  repeat split; try lia.
  - apply rune_count_loop_ascii.
  - intros Hlt. simpl. destruct (Z.ltb_spec (rune_count_loop value 0) n); [reflexivity|lia].
  - intros Hle. destruct (Z.ltb_spec n (rune_count_loop value 0)); [lia|reflexivity].
Qed.

Lemma RuneCountInString_bounds_witness :
  MaxLength 10 "username" "johndoe" = (true, "").
Proof.
  apply (proj2 (proj2 (proj2 (RuneCountInString_bounds "username" 10 "johndoe")))).
  simpl. lia.
Defined.

(** X8: [MaxLength max] fails, with "This field must not exceed {max}
    characters", exactly when the rune count of the value is above [max].
    After [String] with [MinLength min] followed by [MaxLength max], a
    field that had no error has none exactly when the count is from [min]
    to [max]; on a count below [min] the error map reads the minimum
    message under the field and [MaxLength] was not called; on a count
    from [min] on and above [max] it reads the maximum message. *)
Theorem MaxLength_and_MinLength min max field v :
  (forall value,
      MaxLength max field value
      = (false, "This field must not exceed " +:+ Sprintf_d max +:+ " characters")
      <-> max < RuneCountInString value)
  /\ (forall value, MaxLength max field value = (true, "") <-> RuneCountInString value <= max)
  /\ (Validator.Errors v !! field = None ->
      (Validator.Errors (Validator.String field [MinLength min; MaxLength max] v).1.2 !! field
       = None
       <-> min <= RuneCountInString (Validator.GetValue field v) <= max))
  /\ (min <= RuneCountInString (Validator.GetValue field v) <= max ->
      Validator.String field [MinLength min; MaxLength max] v
      = (Validator.GetValue field v, v, 2%nat))
  /\ (RuneCountInString (Validator.GetValue field v) < min ->
      Validator.String field [MinLength min; MaxLength max] v
      = (Validator.GetValue field v,
         Validator.set_error field
           ("This field must be at least " +:+ Sprintf_d min +:+ " characters long") v,
         1%nat)
      /\ Validator.Errors (Validator.String field [MinLength min; MaxLength max] v).1.2
         !! field
         = Some ("This field must be at least " +:+ Sprintf_d min +:+ " characters long"))
  /\ (min <= RuneCountInString (Validator.GetValue field v)
      /\ max < RuneCountInString (Validator.GetValue field v) ->
      Validator.String field [MinLength min; MaxLength max] v
      = (Validator.GetValue field v,
         Validator.set_error field
           ("This field must not exceed " +:+ Sprintf_d max +:+ " characters") v,
         2%nat)
      /\ Validator.Errors (Validator.String field [MinLength min; MaxLength max] v).1.2
         !! field
         = Some ("This field must not exceed " +:+ Sprintf_d max +:+ " characters")).
Proof.
  assert (Hcases :
    (min <= RuneCountInString (Validator.GetValue field v) <= max
     /\ Validator.String field [MinLength min; MaxLength max] v
        = (Validator.GetValue field v, v, 2%nat))
    \/ (RuneCountInString (Validator.GetValue field v) < min
        /\ Validator.String field [MinLength min; MaxLength max] v
           = (Validator.GetValue field v,
              Validator.set_error field
                ("This field must be at least " +:+ Sprintf_d min +:+ " characters long") v,
              1%nat))
    \/ ((min <= RuneCountInString (Validator.GetValue field v)
         /\ max < RuneCountInString (Validator.GetValue field v))
        /\ Validator.String field [MinLength min; MaxLength max] v
           = (Validator.GetValue field v,
              Validator.set_error field
                ("This field must not exceed " +:+ Sprintf_d max +:+ " characters") v,
              2%nat))).
  { unfold Validator.String, MinLength, MaxLength; simpl.
    destruct (Z.ltb_spec (RuneCountInString (Validator.GetValue field v)) min);
      [right; left; split; [lia|reflexivity]|].
    destruct (Z.ltb_spec max (RuneCountInString (Validator.GetValue field v)));
      [right; right; split; [lia|reflexivity]|left; split; [lia|reflexivity]]. }
  split; [|split; [|split; [|split; [|split]]]].
  - intros value. unfold MaxLength.
    destruct (Z.ltb_spec max (RuneCountInString value)); split;
      intros; try discriminate; try reflexivity; lia.
  - intros value. unfold MaxLength.
    destruct (Z.ltb_spec max (RuneCountInString value)); split;
      intros; try discriminate; try reflexivity; lia.
  - intros Hnone. destruct Hcases as [[Hc ->]|[[Hc ->]|[Hc ->]]]; simpl.
    + tauto.
    + rewrite lookup_insert_eq. split; [discriminate|lia].
    + rewrite lookup_insert_eq. split; [discriminate|lia].
  - intros Hc. destruct Hcases as [[_ ->]|[[Hc' _]|[Hc' _]]]; [reflexivity|lia|lia].
  - intros Hc. destruct Hcases as [[Hc' _]|[[_ ->]|[Hc' _]]]; [lia| |lia].
    simpl. split; [reflexivity|apply lookup_insert_eq].
  - intros Hc. destruct Hcases as [[Hc' _]|[[Hc' _]|[_ ->]]]; [lia|lia|].
    simpl. split; [reflexivity|apply lookup_insert_eq].
Qed.

Lemma MaxLength_and_MinLength_witness :
  Validator.Errors
    (Validator.String "username" [MinLength 3; MaxLength 10]
       (Validator.SetValue "username" "john_doe_the_third" Validator.New)).1.2
  !! "username" = Some ("This field must not exceed " +:+ Sprintf_d 10 +:+ " characters").
Proof.
  refine (proj2 (proj2 (proj2 (proj2 (proj2 (proj2
    (MaxLength_and_MinLength 3 10 "username"
       (Validator.SetValue "username" "john_doe_the_third" Validator.New)))))) _)).
  split; vm_compute; [discriminate|reflexivity].
Defined.

(** ** [InStringSlice], [IntRange] and [Custom] *)

Lemma existsb_eqb_In_r (s : string) (l : list string) :
  existsb (fun item => String.eqb item s) l = true <-> In s l.
Proof.
  rewrite existsb_exists. split.
  - intros (x & Hx & E). apply String.eqb_eq in E. now subst.
  - intros Hin. exists s. split; [assumption|apply String.eqb_refl].
Qed.

(** X9: [InStringSlice slice] passes exactly the values that are, byte for
    byte, a member of [slice], and fails every other value with "This
    value is not in the allowed list". After [String] with it, the error
    map reads that message under the field whenever the stored value is
    no member, and the error of the field is as it was whenever it is one;
    a field that was never set holds the empty string, so it gets the
    message unless the empty string is a member. *)
Theorem InStringSlice_membership slice field value v :
  (InStringSlice slice field value = (true, "") <-> In value slice)
  /\ (InStringSlice slice field value = (false, "This value is not in the allowed list")
      <-> ~ In value slice)
  /\ (~ In (Validator.GetValue field v) slice ->
      Validator.Errors (Validator.String field [InStringSlice slice] v).1.2 !! field
      = Some "This value is not in the allowed list")
  /\ (In (Validator.GetValue field v) slice ->
      Validator.Errors (Validator.String field [InStringSlice slice] v).1.2
      = Validator.Errors v)
  /\ (Validator.values v !! field = None -> ~ In "" slice ->
      Validator.String field [InStringSlice slice] v
      = ("", Validator.set_error field "This value is not in the allowed list" v, 1%nat)
      /\ Validator.Errors (Validator.String field [InStringSlice slice] v).1.2 !! field
         = Some "This value is not in the allowed list").
Proof.
  pose proof (existsb_eqb_In_r value slice) as Hv.
  split; [|split; [|split; [|split]]].
  - unfold InStringSlice.
    destruct (existsb (fun item => String.eqb item value) slice);
      split; try reflexivity; try discriminate;
      [intros _; now apply Hv|intros Hin; apply Hv in Hin; discriminate].
  - unfold InStringSlice.
    destruct (existsb (fun item => String.eqb item value) slice);
      split; try reflexivity; try discriminate.
    + intros Hn. exfalso. apply Hn. now apply Hv.
    + intros _ Hin. apply Hv in Hin. discriminate.
  - intros Hn. unfold Validator.String, InStringSlice; simpl.
    destruct (existsb (fun item => String.eqb item (Validator.GetValue field v)) slice) eqn:E.
    + exfalso. apply Hn. now apply existsb_eqb_In_r.
    + simpl. apply lookup_insert_eq.
  - intros Hin. apply existsb_eqb_In_r in Hin.
    unfold Validator.String, InStringSlice; simpl. now rewrite Hin.
  - intros Hnone Hn. unfold Validator.String, Validator.GetValue. rewrite Hnone; simpl.
    unfold InStringSlice.
    destruct (existsb (fun item => String.eqb item "") slice) eqn:E.
    + exfalso. apply Hn. now apply existsb_eqb_In_r.
    + simpl. split; [reflexivity|apply lookup_insert_eq].
Qed.

Lemma InStringSlice_membership_witness :
  Validator.Errors
    (Validator.String "fruit" [InStringSlice ["apple"; "banana"; "orange"]]
       Validator.New).1.2
  !! "fruit" = Some "This value is not in the allowed list".
Proof.
  refine (proj2 (proj2 (proj2 (proj2 (proj2
    (InStringSlice_membership ["apple"; "banana"; "orange"] "fruit" "" Validator.New))))
    _ _)).
  - reflexivity.
  - simpl. intros [E|[E|[E|[]]]]; discriminate E.
Defined.

(** A function that passes the value can be dropped from the list. *)
Lemma validate_drop_passing field value before f after v :
  passes field value f ->
  (Validator.validate field value (before ++ f :: after) v).1
  = (Validator.validate field value (before ++ after) v).1.
Proof.
  intros Hf. induction before as [|g before IH]; simpl.
  - unfold passes in Hf. destruct (f field value) as [ok m]; simpl in Hf. subst ok; simpl.
    now destruct (Validator.validate field value after v).
  - destruct (g field value) as [[] m]; simpl; [|reflexivity].
    destruct (Validator.validate field value (before ++ f :: after) v),
      (Validator.validate field value (before ++ after) v); simpl in *.
    exact IH.
Qed.

(** X10: [IntRange min max] checks nothing: with it anywhere in the list
    the validator comes out as without it, and [Int] with it alone returns
    every integer the value parses to, also one outside [min, max], and
    records no error. *)
Theorem IntRange_checks_nothing min max field before after v :
  (Validator.String field (before ++ IntRange min max :: after) v).1.2
  = (Validator.String field (before ++ after) v).1.2
  /\ (Validator.Int field (before ++ IntRange min max :: after) v).1.2
     = (Validator.Int field (before ++ after) v).1.2
  /\ (forall n, ParseInt (Validator.GetValue field v) = (n, None) ->
                Validator.Int field [IntRange min max] v = (n, v, 1%nat)).
Proof.
  pose proof (validate_drop_passing field (Validator.GetValue field v) before
                (IntRange min max) after v eq_refl) as Hd.
  repeat split.
  - unfold Validator.String.
    destruct (Validator.validate field (Validator.GetValue field v)
                (before ++ IntRange min max :: after) v),
      (Validator.validate field (Validator.GetValue field v) (before ++ after) v).
    exact Hd.
  - destruct (ParseInt (Validator.GetValue field v)) as [i [e|]] eqn:Hp.
    + now rewrite !(Int_on_parse_error _ _ _ _ _ Hp).
    + rewrite !(Int_on_parse_ok _ _ _ _ Hp). exact Hd.
  - intros n Hp. now rewrite (Int_on_parse_ok _ _ _ _ Hp).
Qed.

Lemma IntRange_checks_nothing_witness :
  Validator.Int "age" [IntRange 1 10] (Validator.SetValue "age" "50" Validator.New)
  = (50, Validator.SetValue "age" "50" Validator.New, 1%nat).
Proof.
  apply (proj2 (proj2 (IntRange_checks_nothing 1 10 "age" [] []
                         (Validator.SetValue "age" "50" Validator.New)))).
  reflexivity.
Defined.

(** ** [Int] and the decimal notation *)

Definition is_digit (c : ascii) : bool :=
  (byte_val "0" <=? byte_val c) && (byte_val c <=? byte_val "9").

Lemma pretty_N_char_val k :
  (k < 10)%N -> byte_val (pretty_N_char k) = 48 + Z.of_N k.
Proof.
  intros Hk.
  assert (Hc : In k [0; 1; 2; 3; 4; 5; 6; 7; 8; 9]%N).
  { simpl. lia. }
  simpl in Hc.
  repeat (destruct Hc as [<-|Hc]; [reflexivity|]). destruct Hc.
Qed.

(** Reading the digits [pretty_N_go] puts in front of [s] brings the
    accumulator from 0 to [x]. *)
Lemma ParseUint_loop_pretty_N_go x s :
  Z.of_N x <= maxUint64 ->
  ParseUint_loop (pretty_N_go x s) 0 = ParseUint_loop s (Z.of_N x).
Proof.
  revert s. induction (N.lt_wf_0 x) as [x _ IH]. intros s Hx.
  destruct (N.eq_dec x 0%N) as [->|Hne]; [now rewrite pretty_N_go_0|].
  rewrite pretty_N_go_step by lia.
  pose proof (N.div_mod x 10 ltac:(lia)) as Hdm.
  pose proof (N.mod_lt x 10 ltac:(lia)) as Hmod.
  pose proof (N.div_lt x 10 ltac:(lia) ltac:(lia)) as Hdiv.
  revert IH Hdm Hmod Hdiv.
  generalize (x `div` 10)%N (x `mod` 10)%N. intros q r IH Hdm Hmod Hdiv.
  unfold maxUint64 in *.
  rewrite IH; [|exact Hdiv|lia].
  cbn [ParseUint_loop]. unfold maxUint64. rewrite (pretty_N_char_val _ Hmod).
  change (byte_val "0") with 48. change (byte_val "9") with 57.
  replace ((48 <=? 48 + Z.of_N r) && (48 + Z.of_N r <=? 57))
    with true by (symmetry; apply andb_true_iff; lia).
  replace ((2 ^ 64 - 1) `div` 10 + 1) with 1844674407370955162 by reflexivity.
  destruct (Z.leb_spec 1844674407370955162 (Z.of_N q)); [lia|].
  rewrite (Z.mod_small (Z.of_N q * 10)) by lia.
  rewrite Z.mod_small by lia.
  replace (Z.of_N q * 10 + (48 + Z.of_N r - 48)) with (Z.of_N x) by lia.
  replace ((Z.of_N x <? Z.of_N q * 10) || (2 ^ 64 - 1 <? Z.of_N x)) with false
    by (symmetry; apply orb_false_iff; lia).
  reflexivity.
Qed.

(** The notation of a positive number starts with a digit. *)
Lemma pretty_N_go_head x s :
  (0 < x)%N -> exists c t, pretty_N_go x s = String c t /\ is_digit c = true.
Proof.
  revert s. induction (N.lt_wf_0 x) as [x _ IH]. intros s Hx.
  rewrite pretty_N_go_step by lia.
  pose proof (N.mod_lt x 10 ltac:(lia)) as Hmod.
  pose proof (N.div_lt x 10 ltac:(lia) ltac:(lia)) as Hdiv.
  revert IH Hmod Hdiv.
  generalize (x `div` 10)%N (x `mod` 10)%N. intros q r IH Hmod Hdiv.
  destruct (N.eq_dec q 0%N) as [E|Hne].
  - rewrite E, pretty_N_go_0. eexists _, _. split; [reflexivity|].
    unfold is_digit. rewrite pretty_N_char_val by assumption.
    change (byte_val "0") with 48. change (byte_val "9") with 57. lia.
  - apply IH; [assumption|lia].
Qed.

Lemma ParseUint_pretty p :
  Z.pos p <= maxUint64 ->
  exists c t, pretty_N_go (N.pos p) "" = String c t
              /\ is_digit c = true
              /\ ParseUint (String c t) = (Z.pos p, None).
Proof.
  intros Hp. destruct (pretty_N_go_head (N.pos p) "" ltac:(lia)) as (c & t & E & Hc).
  exists c, t. repeat split; try assumption.
  unfold ParseUint. rewrite <- E.
  now rewrite ParseUint_loop_pretty_N_go by (simpl; lia).
Qed.

Lemma digit_not_sign c :
  is_digit c = true -> Ascii.eqb c "+" = false /\ Ascii.eqb c "-" = false.
Proof.
  unfold is_digit. change (byte_val "0") with 48. change (byte_val "9") with 57.
  intros Hd. split.
  - destruct (Ascii.eqb_spec c "+") as [->|]; [|reflexivity]. simpl in Hd. discriminate.
  - destruct (Ascii.eqb_spec c "-") as [->|]; [|reflexivity]. simpl in Hd. discriminate.
Qed.

Lemma ParseInt_Sprintf_d n :
  - 2 ^ 63 <= n < 2 ^ 63 -> ParseInt (Sprintf_d n) = (n, None).
Proof.
  intros Hn. unfold Sprintf_d, pretty, pretty_Z. destruct n as [|p|p].
  - reflexivity.
  - unfold pretty, pretty_positive, pretty, pretty_N.
    destruct (decide (N.pos p = 0%N)) as [E|_]; [discriminate E|].
    destruct (ParseUint_pretty p) as (c & t & -> & Hc & Hu); [unfold maxUint64; lia|].
    unfold ParseInt. destruct (digit_not_sign c Hc) as [-> ->]. rewrite Hu.
    simpl negb. cbn [andb].
    destruct (Z.leb_spec (2 ^ 63) (Z.pos p)); [lia|]. reflexivity.
  - unfold pretty, pretty_positive, pretty, pretty_N.
    destruct (decide (N.pos p = 0%N)) as [E|_]; [discriminate E|].
    destruct (ParseUint_pretty p) as (c & t & -> & Hc & Hu); [unfold maxUint64; lia|].
    rewrite append_String, append_Empty.
    unfold ParseInt. change (Ascii.eqb "-" "+") with false.
    change (Ascii.eqb "-" "-") with true. cbn iota. rewrite Hu.
    simpl negb. cbn [andb].
    destruct (Z.ltb_spec (2 ^ 63) (Z.pos p)); [lia|]. reflexivity.
Qed.

(** X11: the decimal notation of every 64-bit integer parses back to it:
    on a field holding [Sprintf_d n], with [n] from -2^63 to 2^63 - 1,
    [Int] without validations returns [n] and records nothing. *)
Theorem Int_reads_decimal_notation n field v :
  - 2 ^ 63 <= n < 2 ^ 63 ->
  Validator.Int field [] (Validator.SetValue field (Sprintf_d n) v)
  = (n, Validator.SetValue field (Sprintf_d n) v, 0%nat).
Proof.
  intros Hn. apply Int_on_parse_ok.
  unfold Validator.GetValue, Validator.SetValue; simpl.
  rewrite lookup_insert_eq; simpl. now apply ParseInt_Sprintf_d.
Qed.

Lemma Int_reads_decimal_notation_witness :
  Validator.Int "offset" [] (Validator.SetValue "offset" (Sprintf_d (-9223372036854775808)) Validator.New)
  = (-9223372036854775808,
     Validator.SetValue "offset" (Sprintf_d (-9223372036854775808)) Validator.New, 0%nat).
Proof.
  apply (Int_reads_decimal_notation (-9223372036854775808) "offset" Validator.New).
  lia.
Defined.

Lemma ParseUint_loop_ok s n r :
  0 <= n -> ParseUint_loop s n = (r, None) ->
  string_forallb is_digit s = true /\ 0 <= r.
Proof.
  revert n. induction s as [|c s IH]; intros n Hn; cbn [ParseUint_loop string_forallb].
  - intros E. injection E as <-. auto.
  - fold (is_digit c). destruct (is_digit c); [|discriminate].
    destruct (maxUint64 `div` 10 + 1 <=? n); [discriminate|].
    match goal with |- context [if ?b then _ else _] => destruct b end; [discriminate|].
    intros E. apply IH in E; [exact E|]. apply Z.mod_pos_bound. lia.
Qed.

Lemma ParseUint_loop_range s n r :
  ParseUint_loop s n = (r, Some ErrRange) -> r = maxUint64.
Proof.
  revert n. induction s as [|c s IH]; intros n; cbn [ParseUint_loop]; [discriminate|].
  destruct ((byte_val "0" <=? byte_val c) && (byte_val c <=? byte_val "9")); [|discriminate].
  destruct (maxUint64 `div` 10 + 1 <=? n); [intros E; now injection E|].
  match goal with |- context [if ?b then _ else _] => destruct b end;
    [intros E; now injection E|apply IH].
Qed.

Lemma ParseUint_range s r :
  ParseUint s = (r, Some ErrRange) -> r = maxUint64.
Proof.
  unfold ParseUint. destruct s; [discriminate|]. apply ParseUint_loop_range.
Qed.

Lemma ParseUint_ok s r :
  ParseUint s = (r, None) ->
  s <> "" /\ string_forallb is_digit s = true /\ 0 <= r.
Proof.
  unfold ParseUint. destruct s as [|c s]; [discriminate|].
  intros E. apply ParseUint_loop_ok in E; [|lia]. split; [discriminate|exact E].
Qed.

(** What [ParseInt] accepts: an optional sign and one or more digits,
    nothing else, with a value that fits 64 bits. *)
Lemma ParseInt_ok s n :
  ParseInt s = (n, None) ->
  - 2 ^ 63 <= n < 2 ^ 63
  /\ exists sign digits,
       s = sign +:+ digits /\ In sign [""; "+"; "-"]
       /\ digits <> "" /\ string_forallb is_digit digits = true.
Proof.
  unfold ParseInt. destruct s as [|c t]; [discriminate|].
  assert (Hbody : forall neg s',
    (let '(un, err) := ParseUint s' in
     match err with
     | Some ErrSyntax => (0, err)
     | _ => if negb neg && (2 ^ 63 <=? un) then (2 ^ 63 - 1, Some ErrRange)
            else if neg && (2 ^ 63 <? un) then (- 2 ^ 63, Some ErrRange)
            else (if neg then - un else un, None)
     end) = (n, None) ->
    - 2 ^ 63 <= n < 2 ^ 63
    /\ s' <> "" /\ string_forallb is_digit s' = true).
  { intros neg s'. destruct (ParseUint s') as [un [[]|]] eqn:Hu; try discriminate.
    - apply ParseUint_range in Hu. subst un. unfold maxUint64.
      destruct neg; simpl; discriminate.
    - apply ParseUint_ok in Hu as (Hne & Hd & Hpos).
      destruct neg; simpl.
      + destruct (Z.ltb_spec (2 ^ 63) un); [discriminate|].
        intros E. injection E as <-. repeat split; try assumption; lia.
      + destruct (Z.leb_spec (2 ^ 63) un); [discriminate|].
        intros E. injection E as <-. repeat split; try assumption; lia. }
  destruct (Ascii.eqb_spec c "+") as [->|Hplus].
  - intros E. apply Hbody in E as (Hr & Hne & Hd). split; [exact Hr|].
    exists "+", t. simpl. repeat split; auto.
  - destruct (Ascii.eqb_spec c "-") as [->|Hminus].
    + intros E. apply Hbody in E as (Hr & Hne & Hd). split; [exact Hr|].
      exists "-", t. simpl. repeat split; auto.
    + intros E. apply Hbody in E as (Hr & Hne & Hd). split; [exact Hr|].
      exists "", (String c t). simpl. repeat split; auto.
Qed.

(** X12: what [Int] returns always fits 64 bits, and it is not zero only
    when the stored value is an optional sign followed by one or more
    decimal digits and nothing else (no space, no separator); on every
    other value [Int] returns 0 and leaves "This field must be a valid
    integer" under the field. *)
Theorem Int_returns_int64 field validations v :
  - 2 ^ 63 <= (Validator.Int field validations v).1.1 < 2 ^ 63
  /\ ((Validator.Int field validations v).1.1 <> 0 ->
      exists sign digits,
        Validator.GetValue field v = sign +:+ digits /\ In sign [""; "+"; "-"]
        /\ digits <> "" /\ string_forallb is_digit digits = true)
  /\ ((forall sign digits,
         In sign [""; "+"; "-"] -> string_forallb is_digit digits = true ->
         digits <> "" -> Validator.GetValue field v <> sign +:+ digits) ->
      (Validator.Int field validations v).1.1 = 0
      /\ Validator.Errors (Validator.Int field validations v).1.2 !! field
         = Some "This field must be a valid integer").
Proof.
  destruct (ParseInt (Validator.GetValue field v)) as [n [e|]] eqn:Hp.
  - rewrite (Int_on_parse_error _ _ _ _ _ Hp); simpl.
    split; [lia|]. split.
    + intros Hne. now contradiction Hne.
    + intros _. split; [reflexivity|]. now rewrite lookup_insert_eq.
  - rewrite (Int_on_parse_ok _ _ _ _ Hp); simpl.
    destruct (ParseInt_ok _ _ Hp) as (Hr & sign & digits & Hs & Hin & Hne & Hd).
    split; [lia|]. split.
    + intros _. now exists sign, digits.
    + intros Hno. exfalso. exact (Hno sign digits Hin Hd Hne Hs).
Qed.

Lemma Int_returns_int64_witness :
  exists sign digits,
    Validator.GetValue "age" (Validator.SetValue "age" "-25" Validator.New)
    = sign +:+ digits /\ In sign [""; "+"; "-"]
    /\ digits <> "" /\ string_forallb is_digit digits = true.
Proof.
  apply (proj1 (proj2 (Int_returns_int64 "age" []
                         (Validator.SetValue "age" "-25" Validator.New)))).
  discriminate.
Defined.

(** ** [filepath.Ext] and the extension check *)

(** Neither a dot nor a separator. *)
Definition plain_byte (c : ascii) : bool := negb (Ascii.eqb c ".") && negb (Ascii.eqb c "/").

Definition not_dot (c : ascii) : bool := negb (Ascii.eqb c ".").

Lemma length_append s t :
  String.length (s +:+ t) = (String.length s + String.length t)%nat.
Proof. induction s as [|c s IH]; [reflexivity|]. rewrite append_String. simpl. now rewrite IH. Qed.

Lemma append_assoc s t u : (s +:+ t) +:+ u = s +:+ (t +:+ u).
Proof. induction s as [|c s IH]; [reflexivity|]. rewrite !append_String. now rewrite IH. Qed.

Lemma substring_all s : String.substring 0 (String.length s) s = s.
Proof. induction s as [|c s IH]; [reflexivity|]. simpl. now rewrite IH. Qed.

Lemma substring_append before s :
  String.substring (String.length before) (String.length s) (before +:+ s) = s.
Proof.
  induction before as [|c before IH]; [apply substring_all|].
  rewrite append_String. simpl. exact IH.
Qed.

Lemma get_append_r before s k :
  String.get (String.length before + k) (before +:+ s) = String.get k s.
Proof.
  induction before as [|c before IH]; [reflexivity|].
  rewrite append_String. simpl. exact IH.
Qed.

Lemma get_forallb p s k c :
  string_forallb p s = true -> String.get k s = Some c -> p c = true.
Proof.
  revert k. induction s as [|a s IH]; intros k Hp; simpl; [discriminate|].
  simpl in Hp. apply andb_true_iff in Hp as [Ha Hs].
  destruct k as [|k]; [intros E; now injection E as <-|now apply IH].
Qed.

Lemma get_in_range s k : (k < String.length s)%nat -> exists c, String.get k s = Some c.
Proof.
  revert k. induction s as [|a s IH]; intros k Hk; simpl in *; [lia|].
  destruct k as [|k]; [now exists a|]. apply IH. lia.
Qed.

(** Scanning down through plain bytes reaches the dot in front of them. *)
Lemma Ext_loop_plain stem e k :
  string_forallb plain_byte e = true ->
  (k <= String.length e)%nat ->
  Ext_loop (stem +:+ String "." e) (String.length stem + S k) = String "." e.
Proof.
  intros He. induction k as [|k IH]; intros Hk.
  - replace (String.length stem + 1)%nat with (S (String.length stem)) by lia.
    cbn [Ext_loop].
    replace (String.length stem) with (String.length stem + 0)%nat at 1 by lia.
    rewrite get_append_r. simpl String.get. cbn iota.
    change (Ascii.eqb "." "/") with false. change (Ascii.eqb "." ".") with true. cbn iota.
    rewrite length_append.
    replace (String.length stem + String.length (String "." e) - String.length stem)%nat
      with (String.length (String "." e)) by lia.
    apply substring_append.
  - replace (String.length stem + S (S k))%nat with (S (String.length stem + S k)) by lia.
    cbn [Ext_loop]. rewrite get_append_r. simpl String.get.
    destruct (get_in_range e k ltac:(lia)) as [c Hc]. rewrite Hc.
    pose proof (get_forallb _ _ _ _ He Hc) as Hp. unfold plain_byte in Hp.
    apply andb_true_iff in Hp as [Hd Hs].
    apply negb_true_iff in Hd, Hs. rewrite Hd, Hs. apply IH. lia.
Qed.

(** Scanning down through bytes that are no dot finds no extension, as
    long as a separator or the start of the path ends the scan. *)
Lemma Ext_loop_no_dot before base k :
  string_forallb not_dot base = true ->
  (k <= String.length base)%nat ->
  before = "" \/ (exists dir, before = dir +:+ "/") ->
  Ext_loop (before +:+ base) (String.length before + k) = "".
Proof.
  intros Hb. induction k as [|k IH]; intros Hk Hbefore.
  - rewrite Nat.add_0_r. destruct Hbefore as [->|[dir ->]]; [reflexivity|].
    rewrite length_append. simpl String.length.
    replace (String.length dir + 1)%nat with (S (String.length dir)) by lia.
    cbn [Ext_loop]. rewrite append_assoc.
    replace (String.length dir) with (String.length dir + 0)%nat at 1 by lia.
    rewrite get_append_r. reflexivity.
  - replace (String.length before + S k)%nat with (S (String.length before + k)) by lia.
    cbn [Ext_loop]. rewrite get_append_r.
    destruct (get_in_range base k ltac:(lia)) as [c Hc]. rewrite Hc.
    pose proof (get_forallb _ _ _ _ Hb Hc) as Hp. unfold not_dot in Hp.
    apply negb_true_iff in Hp. rewrite Hp.
    destruct (Ascii.eqb c "/"); [reflexivity|]. apply IH; [lia|assumption].
Qed.

(** X13: the extension of a file name that ends in a dot followed by
    bytes that are neither dot nor slash is that dot with those bytes; a
    name whose last element has no dot has the empty extension. *)
Theorem Ext_of_file_name stem e dir base :
  (string_forallb plain_byte e = true -> Ext (stem +:+ "." +:+ e) = "." +:+ e)
  /\ (string_forallb not_dot base = true ->
      Ext base = "" /\ Ext (dir +:+ "/" +:+ base) = "").
Proof.
  split.
  - intros He. unfold Ext. rewrite append_String, append_Empty.
    rewrite length_append. simpl String.length.
    apply Ext_loop_plain; [assumption|lia].
  - intros Hb. unfold Ext. split.
    + apply (Ext_loop_no_dot "" base (String.length base) Hb); [lia|now left].
    + rewrite <- append_assoc, length_append.
      apply Ext_loop_no_dot; [assumption|lia|]. right. now exists dir.
Qed.

Lemma Ext_of_file_name_witness :
  Ext ("holiday.2024" +:+ "." +:+ "JPG") = "." +:+ "JPG".
Proof.
  apply (proj1 (Ext_of_file_name "holiday.2024" "JPG" "" "")).
  reflexivity.
Defined.

(** ** What [ImageConfig] can yield *)

Section ConfigResults.
Context `{GoLib}.

Lemma expansion_cases f :
  (In (ToLower f) ["jpg"; "jpeg"; "png"; "gif"; "webp"]
   /\ (expansion f = (["image/jpeg"], [".jpg"; ".jpeg"])
       \/ expansion f = (["image/png"], [".png"])
       \/ expansion f = (["image/gif"], [".gif"])
       \/ expansion f = (["image/webp"], [".webp"])))
  \/ (~ In (ToLower f) ["jpg"; "jpeg"; "png"; "gif"; "webp"] /\ expansion f = ([], [])).
Proof.
  unfold expansion; simpl.
  destruct (String.eqb_spec (ToLower f) "jpg") as [->|]; [simpl; tauto|].
  destruct (String.eqb_spec (ToLower f) "jpeg") as [->|]; [simpl; tauto|].
  destruct (String.eqb_spec (ToLower f) "png") as [->|]; [simpl; tauto|].
  destruct (String.eqb_spec (ToLower f) "gif") as [->|]; [simpl; tauto|].
  destruct (String.eqb_spec (ToLower f) "webp") as [->|]; [simpl; tauto|].
  right. split; [|reflexivity]. simpl. intros [E|[E|[E|[E|[E|[]]]]]]; congruence.
Qed.

Lemma expansion_types f t :
  In t (expansion f).1 -> In t ["image/jpeg"; "image/png"; "image/gif"; "image/webp"].
Proof.
  destruct (expansion_cases f) as [[_ [E|[E|[E|E]]]]|[_ E]]; rewrite E; simpl; tauto.
Qed.

Lemma expansion_exts f e :
  In e (expansion f).2 -> In e [".jpg"; ".jpeg"; ".png"; ".gif"; ".webp"].
Proof.
  destruct (expansion_cases f) as [[_ [E|[E|[E|E]]]]|[_ E]]; rewrite E; simpl; tauto.
Qed.

Lemma expansion_empty f :
  ((expansion f).1 = [] <-> (expansion f).2 = [])
  /\ (~ In (ToLower f) ["jpg"; "jpeg"; "png"; "gif"; "webp"] -> expansion f = ([], [])).
Proof.
  destruct (expansion_cases f) as [[Hin [E|[E|[E|E]]]]|[Hn E]]; rewrite E; simpl;
    (split; [split; intros; discriminate || reflexivity|]);
    intros Hn'; try reflexivity; contradiction.
Qed.

Lemma ImageConfig_lists maxSize formats :
  formats <> [] ->
  ImageConfig maxSize formats
  = {| MaxSize := maxSize;
       AllowedTypes := flat_map (fun f => (expansion f).1) formats;
       AllowedExts := flat_map (fun f => (expansion f).2) formats |}.
Proof.
  intros Hne. unfold ImageConfig. rewrite ImageConfig_loop_expansion.
  destruct formats; [contradiction|reflexivity].
Qed.

Lemma flat_map_expansion formats :
  (forall t, In t (flat_map (fun f => (expansion f).1) formats) ->
             In t ["image/jpeg"; "image/png"; "image/gif"; "image/webp"])
  /\ (forall e, In e (flat_map (fun f => (expansion f).2) formats) ->
                In e [".jpg"; ".jpeg"; ".png"; ".gif"; ".webp"])
  /\ (flat_map (fun f => (expansion f).1) formats = []
      <-> flat_map (fun f => (expansion f).2) formats = [])
  /\ (Forall (fun f => ~ In (ToLower f) ["jpg"; "jpeg"; "png"; "gif"; "webp"]) formats ->
      flat_map (fun f => (expansion f).1) formats = []
      /\ flat_map (fun f => (expansion f).2) formats = []).
Proof.
  split; [|split; [|split]].
  - intros t Ht. apply in_flat_map in Ht as (f & _ & Ht). now apply (expansion_types f).
  - intros e He. apply in_flat_map in He as (f & _ & He). now apply (expansion_exts f).
  - induction formats as [|f fs IH]; simpl; [tauto|].
    split; intros E; apply app_eq_nil in E as [E1 E2].
    + apply (proj1 (expansion_empty f)) in E1. apply IH in E2. now rewrite E1, E2.
    + apply (proj1 (expansion_empty f)) in E1. apply IH in E2. now rewrite E1, E2.
  - induction 1 as [|f fs Hf _ [IH1 IH2]]; simpl; [auto|].
    rewrite (proj2 (expansion_empty f) Hf), IH1, IH2. auto.
Qed.

(** X14: a configuration built by [ImageConfig] keeps the given size
    limit, allows no MIME type outside image/jpeg, image/png, image/gif,
    image/webp and no extension outside .jpg, .jpeg, .png, .gif, .webp,
    and has no allowed type exactly when it has no allowed extension,
    which is what a non-empty list of unrecognised names gives. *)
Theorem ImageConfig_result maxSize formats :
  MaxSize (ImageConfig maxSize formats) = maxSize
  /\ (forall t, In t (AllowedTypes (ImageConfig maxSize formats)) ->
                In t ["image/jpeg"; "image/png"; "image/gif"; "image/webp"])
  /\ (forall e, In e (AllowedExts (ImageConfig maxSize formats)) ->
                In e [".jpg"; ".jpeg"; ".png"; ".gif"; ".webp"])
  /\ (AllowedTypes (ImageConfig maxSize formats) = []
      <-> AllowedExts (ImageConfig maxSize formats) = [])
  /\ (formats <> [] ->
      Forall (fun f => ~ In (ToLower f) ["jpg"; "jpeg"; "png"; "gif"; "webp"]) formats ->
      AllowedTypes (ImageConfig maxSize formats) = []
      /\ AllowedExts (ImageConfig maxSize formats) = []).
Proof.
  assert (Hshape : exists fs,
             (formats <> [] -> fs = formats)
             /\ ImageConfig maxSize formats
                = {| MaxSize := maxSize;
                     AllowedTypes := flat_map (fun f => (expansion f).1) fs;
                     AllowedExts := flat_map (fun f => (expansion f).2) fs |}).
  { destruct formats as [|f fs].
    - exists DefaultImageFormats. split; [congruence|].
      unfold ImageConfig. simpl length. cbn iota.
      now rewrite ImageConfig_loop_expansion.
    - exists (f :: fs). split; [reflexivity|]. now apply ImageConfig_lists. }
  destruct Hshape as (fs & Hfs & ->). simpl.
  destruct (flat_map_expansion fs) as (H1 & H2 & H3 & H4).
  split; [reflexivity|]. split; [exact H1|]. split; [exact H2|]. split; [exact H3|].
  intros Hne Hall. specialize (Hfs Hne). subst fs. now apply H4.
Qed.

End ConfigResults.

Lemma ImageConfig_result_witness :
  AllowedTypes (@ImageConfig sample_lib MB ["bmp"; "TIFF"]) = []
  /\ AllowedExts (@ImageConfig sample_lib MB ["bmp"; "TIFF"]) = [].
Proof.
  apply (proj2 (proj2 (proj2 (proj2 (@ImageConfig_result sample_lib MB ["bmp"; "TIFF"]))))).
  - discriminate.
  - repeat constructor; simpl; intros [E|[E|[E|[E|[E|[]]]]]]; discriminate E.
Defined.

(** ** When [Image] accepts an upload *)

Lemma HasPrefix_iff s pre :
  HasPrefix s pre = true <-> exists rest, s = pre +:+ rest.
Proof.
  unfold HasPrefix. revert s. induction pre as [|c pre IH]; intros s; simpl.
  - split; [intros _; now exists s|intros _; now destruct s].
  - destruct s as [|a s]; [split; [discriminate|intros [rest E]; discriminate E]|].
    simpl. destruct (ascii_dec c a) as [->|Hne].
    + rewrite IH. split; intros [rest E]; exists rest.
      * now rewrite append_String, E.
      * rewrite append_String in E. now injection E.
    + split; [discriminate|]. intros [rest E]. rewrite append_String in E.
      injection E as E1 _. congruence.
Qed.

Section Acceptance.
Context `{GoLib}.

Lemma extension_check_None config file :
  extension_check config file = None
  <-> AllowedExts config = []
      \/ exists allowedExt, In allowedExt (AllowedExts config)
                            /\ ToLower allowedExt = ToLower (Ext (Filename file)).
Proof.
  unfold extension_check.
  destruct (AllowedExts config) as [|a l] eqn:El; [simpl; tauto|].
  simpl length. cbn [Nat.ltb Nat.leb andb].
  destruct (existsb _ (a :: l)) eqn:Ex; simpl.
  - split; [intros _|reflexivity]. right.
    apply existsb_exists in Ex as (x & Hx & E). apply String.eqb_eq in E. now exists x.
  - split; [discriminate|]. intros [E|(x & Hx & E)]; [discriminate E|].
    exfalso. apply not_true_iff_false in Ex. apply Ex.
    apply existsb_exists. exists x. split; [assumption|now apply String.eqb_eq].
Qed.

Lemma type_check_None config f :
  type_check config f = None
  <-> AllowedTypes config = []
      \/ exists allowedType rest,
           In allowedType (AllowedTypes config)
           /\ DetectContentType (read_buffer f) = allowedType +:+ rest.
Proof.
  unfold type_check.
  destruct (AllowedTypes config) as [|a l] eqn:El; [simpl; tauto|].
  simpl length. cbn [Nat.ltb Nat.leb andb].
  destruct (existsb _ (a :: l)) eqn:Ex; simpl.
  - split; [intros _|reflexivity]. right.
    apply existsb_exists in Ex as (x & Hx & E). apply HasPrefix_iff in E as [rest E].
    now exists x, rest.
  - split; [discriminate|]. intros [E|(x & rest & Hx & E)]; [discriminate E|].
    exfalso. apply not_true_iff_false in Ex. apply Ex.
    apply existsb_exists. exists x. split; [assumption|].
    apply HasPrefix_iff. now exists rest.
Qed.

(** X15: [Image] returns a file exactly when one is stored under the
    field, its size is not above a positive [MaxSize], its lower-cased
    extension is the lower-cased form of an allowed extension (or none is
    configured), it can be opened and read, and the sniffed type starts
    with an allowed type (or none is configured); the file returned is the
    stored one and the validator is unchanged. *)
Theorem Image_accepts_iff field config v file :
  Validator.Image field config v = (Some file, v, [EvOpen; EvRead; EvClose])
  <-> Validator.GetFile field v = Some file
      /\ ~ (0 < MaxSize config /\ MaxSize config < Size file)
      /\ (AllowedExts config = []
          \/ exists allowedExt, In allowedExt (AllowedExts config)
                                /\ ToLower allowedExt = ToLower (Ext (Filename file)))
      /\ exists f, Open file = OpenOk f
                   /\ Read_err f <> ReadFailed
                   /\ (AllowedTypes config = []
                       \/ exists allowedType rest,
                            In allowedType (AllowedTypes config)
                            /\ DetectContentType (read_buffer f) = allowedType +:+ rest).
Proof.
  rewrite <- extension_check_None. split.
  - intros HI.
    destruct (Validator.GetFile field v) as [file'|] eqn:Hf;
      [|rewrite (Image_missing _ _ _ Hf) in HI; discriminate].
    destruct (size_check_spec config file') as [(Hs & Hc)|(Hs & Hc)];
      [rewrite (Image_size_fails _ _ _ _ _ Hf Hs) in HI; discriminate|].
    destruct (extension_check config file') as [m|] eqn:He;
      [rewrite (Image_extension_fails _ _ _ _ _ Hf Hs He) in HI; discriminate|].
    rewrite (Image_sniffs _ _ _ _ Hf Hs He) in HI.
    destruct (sniff_check config file') as [m|] eqn:Hsn; [discriminate|].
    injection HI as -> _. repeat split; try assumption; try tauto.
    unfold sniff_check in Hsn. destruct (Open file) as [f|]; [|discriminate].
    exists f. split; [reflexivity|].
    destruct (Read_err f) eqn:Hr; try discriminate;
      (split; [discriminate|now apply type_check_None]).
  - intros (Hf & Hc & He & f & Ho & Hr & Ht).
    destruct (size_check_spec config file) as [(Hs & Hc')|(Hs & _)]; [tauto|].
    rewrite (Image_sniffs _ _ _ _ Hf Hs He).
    apply type_check_None in Ht.
    unfold sniff_check, sniff_io. rewrite Ho.
    destruct (Read_err f); try contradiction; now rewrite Ht.
Qed.

End Acceptance.

Lemma Image_accepts_iff_witness :
  @Validator.Image sample_lib "avatar"
    {| MaxSize := 100; AllowedTypes := ["application/"]; AllowedExts := [".BIN"] |}
    (Validator.SetFile "avatar"
       (Some {| Filename := "dump.bin"; Size := 100;
                Open := OpenOk {| Read_data := []; Read_err := ReadEOF |} |})
       Validator.New)
  = (Some {| Filename := "dump.bin"; Size := 100;
             Open := OpenOk {| Read_data := []; Read_err := ReadEOF |} |},
     Validator.SetFile "avatar"
       (Some {| Filename := "dump.bin"; Size := 100;
                Open := OpenOk {| Read_data := []; Read_err := ReadEOF |} |})
       Validator.New,
     [EvOpen; EvRead; EvClose]).
Proof.
  apply (proj2 (@Image_accepts_iff sample_lib "avatar"
                  {| MaxSize := 100; AllowedTypes := ["application/"]; AllowedExts := [".BIN"] |}
                  (Validator.SetFile "avatar"
                     (Some {| Filename := "dump.bin"; Size := 100;
                              Open := OpenOk {| Read_data := []; Read_err := ReadEOF |} |})
                     Validator.New)
                  {| Filename := "dump.bin"; Size := 100;
                     Open := OpenOk {| Read_data := []; Read_err := ReadEOF |} |})).
  split; [reflexivity|]. split; [simpl; lia|]. split.
  - right. exists ".BIN". split; [now left|reflexivity].
  - eexists. split; [reflexivity|]. split; [discriminate|].
    right. exists "application/", "octet-stream". split; [now left|reflexivity].
Defined.

Section ImageOutcome.
Context `{GoLib}.

(** X16: [Image] reads only from an upload it opened and closes every
    upload it opened: its I/O is nothing, a failed open, or open, read,
    close. It returns nil exactly when it records an error under the
    field, which leaves the validator not valid; a file it returns is the
    stored one, with the validator unchanged. *)
Theorem Image_outcome field config v :
  ((Validator.Image field config v).2 = []
   \/ ((Validator.Image field config v).2 = [EvOpen]
       /\ exists file, Validator.GetFile field v = Some file /\ Open file = OpenErr)
   \/ ((Validator.Image field config v).2 = [EvOpen; EvRead; EvClose]
       /\ exists file f, Validator.GetFile field v = Some file /\ Open file = OpenOk f))
  /\ (forall file,
        (Validator.Image field config v).1.1 = Some file ->
        Validator.GetFile field v = Some file
        /\ (Validator.Image field config v).1.2 = v)
  /\ ((Validator.Image field config v).1.1 = None ->
      exists message,
        (Validator.Image field config v).1.2 = Validator.set_error field message v
        /\ Validator.Errors (Validator.Image field config v).1.2 !! field = Some message
        /\ Validator.Valid (Validator.Image field config v).1.2 = false).
Proof.
  assert (Hrec : forall message,
             Validator.Errors (Validator.set_error field message v) !! field = Some message)
    by (intros m; simpl; now rewrite lookup_insert_eq).
  destruct (Validator.GetFile field v) as [file|] eqn:Hf.
  2:{ rewrite (Image_missing _ _ _ Hf); simpl.
      split; [now left|]. split; [discriminate|].
      intros _. eexists. split; [reflexivity|]. split; [apply Hrec|apply Valid_set_error]. }
  destruct (size_check config file) as [m|] eqn:Hs.
  { rewrite (Image_size_fails _ _ _ _ _ Hf Hs); simpl.
    split; [now left|]. split; [discriminate|].
    intros _. exists m. split; [reflexivity|]. split; [apply Hrec|apply Valid_set_error]. }
  destruct (extension_check config file) as [m|] eqn:He.
  { rewrite (Image_extension_fails _ _ _ _ _ Hf Hs He); simpl.
    split; [now left|]. split; [discriminate|].
    intros _. exists m. split; [reflexivity|]. split; [apply Hrec|apply Valid_set_error]. }
  rewrite (Image_sniffs _ _ _ _ Hf Hs He).
  assert (Hio : sniff_io file = [EvOpen] /\ Open file = OpenErr
                \/ sniff_io file = [EvOpen; EvRead; EvClose] /\ exists f, Open file = OpenOk f).
  { unfold sniff_io. destruct (Open file) as [f|]; [right|left]; eauto. }
  destruct (sniff_check config file) as [m|]; simpl.
  - split.
    + destruct Hio as [[-> Ho]|[-> [f Ho]]]; right; [left|right]; eauto.
    + split; [discriminate|]. intros _. exists m.
      split; [reflexivity|]. split; [apply Hrec|apply Valid_set_error].
  - split.
    + destruct Hio as [[-> Ho]|[-> [f Ho]]]; right; [left|right]; eauto.
    + split; [|discriminate]. intros file' E. injection E as <-. auto.
Qed.

End ImageOutcome.

Lemma Image_outcome_witness :
  exists message,
    (@Validator.Image sample_lib "avatar" (@ImageConfig sample_lib MB []) Validator.New).1.2
    = Validator.set_error "avatar" message Validator.New
    /\ Validator.Errors
         (@Validator.Image sample_lib "avatar" (@ImageConfig sample_lib MB []) Validator.New).1.2
       !! "avatar" = Some message
    /\ Validator.Valid
         (@Validator.Image sample_lib "avatar" (@ImageConfig sample_lib MB []) Validator.New).1.2
       = false.
Proof.
  apply (proj2 (proj2 (@Image_outcome sample_lib "avatar" (@ImageConfig sample_lib MB [])
                         Validator.New))).
  reflexivity.
Defined.

Section ConfiguredImage.
Context `{GoLib}.

Lemma ImageConfig_shape maxSize formats :
  exists fs,
    (formats <> [] -> fs = formats)
    /\ ImageConfig maxSize formats
       = {| MaxSize := maxSize;
            AllowedTypes := flat_map (fun f => (expansion f).1) fs;
            AllowedExts := flat_map (fun f => (expansion f).2) fs |}.
Proof.
  destruct formats as [|f fs].
  - exists DefaultImageFormats. split; [congruence|].
    unfold ImageConfig. simpl length. cbn iota.
    now rewrite ImageConfig_loop_expansion.
  - exists (f :: fs). split; [reflexivity|]. now apply ImageConfig_lists.
Qed.

Lemma ToLower_known_extension e :
  In e [".jpg"; ".jpeg"; ".png"; ".gif"; ".webp"] -> ToLower e = e.
Proof.
  simpl. intros [<-|[<-|[<-|[<-|[<-|[]]]]]]; reflexivity.
Qed.

(** X17: under a configuration built by [ImageConfig] the extension check
    passes exactly when no extension is allowed at all or the lower-cased
    extension of the file name is one of the allowed extensions. When
    [ImageConfig] was given only unrecognised names, [Image] returns every
    stored file that is within the size limit and can be opened and read,
    whatever its name and its content. *)
Theorem Image_under_ImageConfig maxSize formats field v file :
  (extension_check (ImageConfig maxSize formats) file = None
   <-> AllowedExts (ImageConfig maxSize formats) = []
       \/ In (ToLower (Ext (Filename file))) (AllowedExts (ImageConfig maxSize formats)))
  /\ (formats <> [] ->
      Forall (fun f => ~ In (ToLower f) ["jpg"; "jpeg"; "png"; "gif"; "webp"]) formats ->
      Validator.GetFile field v = Some file ->
      ~ (0 < maxSize /\ maxSize < Size file) ->
      (exists f, Open file = OpenOk f /\ Read_err f <> ReadFailed) ->
      Validator.Image field (ImageConfig maxSize formats) v
      = (Some file, v, [EvOpen; EvRead; EvClose])).
Proof.
  destruct (ImageConfig_shape maxSize formats) as (fs & Hfs & Hcfg).
  destruct (flat_map_expansion fs) as (_ & Hexts & _ & Hnone).
  split.
  - rewrite extension_check_None, Hcfg. simpl.
    split; (intros [E|Hin]; [now left|right]).
    + destruct Hin as (a & Ha & E). rewrite <- E.
      now rewrite (ToLower_known_extension a (Hexts a Ha)).
    + exists (ToLower (Ext (Filename file))). split; [assumption|].
      apply ToLower_known_extension. now apply Hexts.
  - intros Hne Hall Hf Hsize (f & Ho & Hr).
    specialize (Hfs Hne). subst fs. destruct (Hnone Hall) as [Ht He].
    rewrite Hcfg, Ht, He.
    assert (Hs : size_check {| MaxSize := maxSize; AllowedTypes := []; AllowedExts := [] |} file
                 = None).
    { destruct (size_check_spec {| MaxSize := maxSize; AllowedTypes := []; AllowedExts := [] |}
                  file) as [(_ & Hc)|(Hs & _)]; [simpl in Hc; tauto|exact Hs]. }
    rewrite (Image_sniffs _ _ _ _ Hf Hs eq_refl).
    unfold sniff_check, sniff_io, type_check. rewrite Ho. simpl.
    destruct (Read_err f); try contradiction; reflexivity.
Qed.

End ConfiguredImage.

Lemma Image_under_ImageConfig_witness :
  @Validator.Image sample_lib "avatar" (@ImageConfig sample_lib MB ["bmp"])
    (Validator.SetFile "avatar"
       (Some {| Filename := "setup.exe"; Size := 4096;
                Open := OpenOk {| Read_data := []; Read_err := ReadNil |} |})
       Validator.New)
  = (Some {| Filename := "setup.exe"; Size := 4096;
             Open := OpenOk {| Read_data := []; Read_err := ReadNil |} |},
     Validator.SetFile "avatar"
       (Some {| Filename := "setup.exe"; Size := 4096;
                Open := OpenOk {| Read_data := []; Read_err := ReadNil |} |})
       Validator.New,
     [EvOpen; EvRead; EvClose]).
Proof.
  apply (proj2 (@Image_under_ImageConfig sample_lib MB ["bmp"] "avatar"
                  (Validator.SetFile "avatar"
                     (Some {| Filename := "setup.exe"; Size := 4096;
                              Open := OpenOk {| Read_data := []; Read_err := ReadNil |} |})
                     Validator.New)
                  {| Filename := "setup.exe"; Size := 4096;
                     Open := OpenOk {| Read_data := []; Read_err := ReadNil |} |})).
  - discriminate.
  - repeat constructor; simpl; intros [E|[E|[E|[E|[E|[]]]]]]; discriminate E.
  - reflexivity.
  - unfold MB, KB; simpl; lia.
  - eexists. split; [reflexivity|discriminate].
Defined.

(** ** The HTTP adapter *)

(** An [*http.Request] as [NewHTTP] sees it: the Content-Type header,
    whether [ParseMultipartForm] returns an error, the files of
    [r.MultipartForm] after that call (absent when [r.MultipartForm] or
    its [File] map is nil), and [r.Form] after [ParseForm]. *)
Record Request := {
  Content_Type : string;
  ParseMultipartForm_err : bool;
  MultipartForm_File : option (gmap string (list (option FileHeader)));
  Form : gmap string (list string)
}.

(** [for field, files := range r.MultipartForm.File { if len(files) > 0 {
    v.SetFile(field, files[0]) } }], over the entries in the order the
    map is ranged in. *)
Definition load_files (entries : list (string * list (option FileHeader))) (v : Validator.t)
  : Validator.t :=
  fold_left
    (fun v entry =>
       match entry.2 with
       | file :: _ => Validator.SetFile entry.1 file v
       | [] => v
       end)
    entries v.

(** [for key, values := range r.Form { if len(values) > 0 {
    v.SetValue(key, values[0]) } }]. *)
Definition load_values (entries : list (string * list string)) (v : Validator.t)
  : Validator.t :=
  fold_left
    (fun v entry =>
       match entry.2 with
       | value :: _ => Validator.SetValue entry.1 value v
       | [] => v
       end)
    entries v.

(** [NewHTTP]. Go leaves the order in which a map is ranged over open, so
    the two orders are arguments: [file_order] lists the entries of the
    file map and [form_order] those of [r.Form]. *)
Definition NewHTTP (r : Request)
    (file_order : list (string * list (option FileHeader)))
    (form_order : list (string * list string)) : Validator.t :=
  let v := Validator.New in
  let v :=
    if HasPrefix (Content_Type r) "multipart/form-data" then
      if ParseMultipartForm_err r then v
      else
        match MultipartForm_File r with
        | Some _ => load_files file_order v
        | None => v
        end
    else v in
  load_values form_order v.

Lemma load_values_frame entries v :
  Validator.Errors (load_values entries v) = Validator.Errors v
  /\ Validator.files (load_values entries v) = Validator.files v.
Proof.
  revert v. induction entries as [|[k xs] l IH]; intros v; simpl; [auto|].
  destruct (IH (match xs with
                | value :: _ => Validator.SetValue k value v
                | [] => v
                end)) as [-> ->].
  destruct xs; auto.
Qed.

Lemma load_files_frame entries v :
  Validator.Errors (load_files entries v) = Validator.Errors v
  /\ Validator.values (load_files entries v) = Validator.values v.
Proof.
  revert v. induction entries as [|[k xs] l IH]; intros v; simpl; [auto|].
  destruct (IH (match xs with
                | file :: _ => Validator.SetFile k file v
                | [] => v
                end)) as [-> ->].
  destruct xs; auto.
Qed.

(** Entries under other keys, and entries without a value, leave a key alone. *)
Lemma load_values_other entries v key :
  (forall xs, (key, xs) ∈ entries -> xs = []) ->
  Validator.values (load_values entries v) !! key = Validator.values v !! key.
Proof.
  revert v. induction entries as [|[k xs] l IH]; intros v Hk; simpl; [reflexivity|].
  rewrite IH by (intros ys Hys; apply Hk; now right).
  destruct xs as [|x xs]; [reflexivity|]. simpl.
  destruct (decide (k = key)) as [->|Hne]; [|now rewrite lookup_insert_ne].
  specialize (Hk (x :: xs) ltac:(left)). discriminate.
Qed.

Lemma load_values_first entries v key x rest :
  NoDup entries.*1 ->
  (key, x :: rest) ∈ entries ->
  Validator.values (load_values entries v) !! key = Some x.
Proof.
  revert v. induction entries as [|[k xs] l IH]; intros v Hnd Hin; [inversion Hin|].
  simpl in Hnd. apply NoDup_cons in Hnd as [Hk Hnd].
  apply elem_of_cons in Hin as [E|Hin].
  - injection E as <- <-. simpl. rewrite load_values_other.
    + simpl. apply lookup_insert_eq.
    + intros ys Hys. exfalso. apply Hk. apply list_elem_of_fmap. now exists (key, ys).
  - simpl. now apply IH.
Qed.

Lemma load_files_other entries v key :
  (forall xs, (key, xs) ∈ entries -> xs = []) ->
  Validator.files (load_files entries v) !! key = Validator.files v !! key.
Proof.
  revert v. induction entries as [|[k xs] l IH]; intros v Hk; simpl; [reflexivity|].
  rewrite IH by (intros ys Hys; apply Hk; now right).
  destruct xs as [|x xs]; [reflexivity|]. simpl.
  destruct (decide (k = key)) as [->|Hne]; [|now rewrite lookup_insert_ne].
  specialize (Hk (x :: xs) ltac:(left)). discriminate.
Qed.

Lemma load_files_first entries v key x rest :
  NoDup entries.*1 ->
  (key, x :: rest) ∈ entries ->
  Validator.files (load_files entries v) !! key = Some x.
Proof.
  revert v. induction entries as [|[k xs] l IH]; intros v Hnd Hin; [inversion Hin|].
  simpl in Hnd. apply NoDup_cons in Hnd as [Hk Hnd].
  apply elem_of_cons in Hin as [E|Hin].
  - injection E as <- <-. simpl. rewrite load_files_other.
    + simpl. apply lookup_insert_eq.
    + intros ys Hys. exfalso. apply Hk. apply list_elem_of_fmap. now exists (key, ys).
  - simpl. now apply IH.
Qed.

Lemma range_order_spec {V} (m : gmap string V) (order : list (string * V)) :
  order ≡ₚ map_to_list m ->
  NoDup order.*1 /\ forall k x, (k, x) ∈ order <-> m !! k = Some x.
Proof.
  intros Hp. split.
  - rewrite Hp. apply NoDup_fst_map_to_list.
  - intros k x. rewrite Hp. apply elem_of_map_to_list.
Qed.

Lemma load_values_lookup (m : gmap string (list string)) order v key :
  order ≡ₚ map_to_list m ->
  Validator.values (load_values order v) !! key
  = match m !! key with
    | Some (value :: _) => Some value
    | _ => Validator.values v !! key
    end.
Proof.
  intros Hp. destruct (range_order_spec m order Hp) as [Hnd Hin].
  destruct (m !! key) as [[|x rest]|] eqn:Hk.
  - apply load_values_other. intros xs Hxs. apply Hin in Hxs. congruence.
  - apply (load_values_first order v key x rest Hnd). now apply Hin.
  - apply load_values_other. intros xs Hxs. apply Hin in Hxs. congruence.
Qed.

Lemma load_files_lookup (m : gmap string (list (option FileHeader))) order v key :
  order ≡ₚ map_to_list m ->
  Validator.files (load_files order v) !! key
  = match m !! key with
    | Some (file :: _) => Some file
    | _ => Validator.files v !! key
    end.
Proof.
  intros Hp. destruct (range_order_spec m order Hp) as [Hnd Hin].
  destruct (m !! key) as [[|x rest]|] eqn:Hk.
  - apply load_files_other. intros xs Hxs. apply Hin in Hxs. congruence.
  - apply (load_files_first order v key x rest Hnd). now apply Hin.
  - apply load_files_other. intros xs Hxs. apply Hin in Hxs. congruence.
Qed.

(** X18: whatever the order in which the two maps are ranged over, the
    validator [NewHTTP] returns has no error; under every key of the form
    it holds the first of the key's values, and reads as the empty string
    for a key without values; it holds the first file of every field of a
    multipart request that parsed, and no file at all when the request is
    not multipart or its parsing failed. *)
Theorem NewHTTP_loads_first_values r file_order form_order :
  (forall files, MultipartForm_File r = Some files -> file_order ≡ₚ map_to_list files) ->
  form_order ≡ₚ map_to_list (Form r) ->
  Validator.Valid (NewHTTP r file_order form_order) = true
  /\ (forall key,
        Validator.GetValue key (NewHTTP r file_order form_order)
        = match Form r !! key with
          | Some (value :: _) => value
          | _ => ""
          end)
  /\ (forall field,
        Validator.GetFile field (NewHTTP r file_order form_order)
        = if HasPrefix (Content_Type r) "multipart/form-data"
             && negb (ParseMultipartForm_err r)
          then match MultipartForm_File r with
               | Some files =>
                   match files !! field with
                   | Some (file :: _) => file
                   | _ => None
                   end
               | None => None
               end
          else None).
Proof.
  intros Hfiles Hform. unfold NewHTTP.
  set (v1 := if HasPrefix (Content_Type r) "multipart/form-data" then _ else _).
  assert (Hv1 : Validator.Errors v1 = ∅ /\ Validator.values v1 = ∅).
  { subst v1. destruct (HasPrefix _ _); [|auto].
    destruct (ParseMultipartForm_err r); [auto|].
    destruct (MultipartForm_File r); [|auto]. apply load_files_frame. }
  destruct Hv1 as [He Hv].
  destruct (load_values_frame form_order v1) as [HE HF].
  split; [|split].
  - apply Valid_true_iff. now rewrite HE.
  - intros key. unfold Validator.GetValue.
    rewrite (load_values_lookup (Form r)) by assumption. rewrite Hv, lookup_empty.
    now destruct (Form r !! key) as [[|x rest]|].
  - intros field. unfold Validator.GetFile. rewrite HF. subst v1.
    assert (Hnew : Validator.files Validator.New !! field = None) by apply lookup_empty.
    destruct (HasPrefix _ _); cbn [andb negb]; [|now rewrite Hnew].
    destruct (ParseMultipartForm_err r); cbn [andb negb]; [now rewrite Hnew|].
    destruct (MultipartForm_File r) as [files|]; [|now rewrite Hnew].
    rewrite (load_files_lookup files) by now apply Hfiles.
    rewrite Hnew.
    now destruct (files !! field) as [[|x rest]|].
Qed.

Lemma NewHTTP_loads_first_values_witness :
  Validator.GetValue "name"
    (NewHTTP {| Content_Type := "application/x-www-form-urlencoded";
                ParseMultipartForm_err := false;
                MultipartForm_File := None;
                Form := {["name" := ["John Doe"; "Jane"]]} |}
       [] [("name", ["John Doe"; "Jane"])])
  = "John Doe".
Proof.
  assert (Hfiles : forall files : gmap string (list (option FileHeader)),
             None = Some files -> [] ≡ₚ map_to_list files)
    by (intros files E; discriminate E).
  assert (Hform : [("name", ["John Doe"; "Jane"])]
                  ≡ₚ map_to_list ({["name" := ["John Doe"; "Jane"]]} : gmap string (list string)))
    by now rewrite map_to_list_singleton.
  rewrite (proj1 (proj2 (NewHTTP_loads_first_values
                           {| Content_Type := "application/x-www-form-urlencoded";
                              ParseMultipartForm_err := false;
                              MultipartForm_File := None;
                              Form := {["name" := ["John Doe"; "Jane"]]} |}
                           [] [("name", ["John Doe"; "Jane"])] Hfiles Hform)) "name").
  reflexivity.
Defined.

(** ** [Email] *)

(** Regular expressions over bytes, as far as the pattern of [Email]
    needs them. Every class of that pattern holds ASCII bytes only, so
    matching bytes is matching runes. *)
Inductive regex :=
  | ReEmpty
  | ReEps
  | ReClass (p : ascii -> bool)
  | ReSeq (r1 r2 : regex)
  | ReAlt (r1 r2 : regex)
  | ReStar (r : regex).

(** [s] is in the language of [r]. *)
Inductive in_language : regex -> string -> Prop :=
  | InEps : in_language ReEps ""
  | InClass p c : p c = true -> in_language (ReClass p) (String c "")
  | InSeq r1 r2 s1 s2 :
      in_language r1 s1 -> in_language r2 s2 -> in_language (ReSeq r1 r2) (s1 +:+ s2)
  | InAltL r1 r2 s : in_language r1 s -> in_language (ReAlt r1 r2) s
  | InAltR r1 r2 s : in_language r2 s -> in_language (ReAlt r1 r2) s
  | InStarNil r : in_language (ReStar r) ""
  | InStarApp r s1 s2 :
      in_language r s1 -> in_language (ReStar r) s2 -> in_language (ReStar r) (s1 +:+ s2).

Fixpoint nullable (r : regex) : bool :=
  match r with
  | ReEmpty => false
  | ReEps => true
  | ReClass _ => false
  | ReSeq r1 r2 => nullable r1 && nullable r2
  | ReAlt r1 r2 => nullable r1 || nullable r2
  | ReStar _ => true
  end.

(** The derivative of [r] by the byte [c]. *)
Fixpoint deriv (c : ascii) (r : regex) : regex :=
  match r with
  | ReEmpty => ReEmpty
  | ReEps => ReEmpty
  | ReClass p => if p c then ReEps else ReEmpty
  | ReSeq r1 r2 =>
      if nullable r1 then ReAlt (ReSeq (deriv c r1) r2) (deriv c r2)
      else ReSeq (deriv c r1) r2
  | ReAlt r1 r2 => ReAlt (deriv c r1) (deriv c r2)
  | ReStar r1 => ReSeq (deriv c r1) (ReStar r1)
  end.

(** Whether the whole of [s] matches [r]: the match of a pattern anchored
    with ^ and $. *)
Fixpoint regex_match (r : regex) (s : string) : bool :=
  match s with
  | EmptyString => nullable r
  | String c t => regex_match (deriv c r) t
  end.

Definition is_letter (c : ascii) : bool := is_lower c || is_upper c.

Definition one_of (chars : string) (c : ascii) : bool :=
  negb (string_forallb (fun a => negb (Ascii.eqb a c)) chars).

(** [[a-zA-Z0-9._%+-]] *)
Definition email_local_byte (c : ascii) : bool :=
  is_letter c || is_digit c || one_of "._%+-" c.

(** [[a-zA-Z0-9.-]] *)
Definition email_domain_byte (c : ascii) : bool :=
  is_letter c || is_digit c || one_of ".-" c.

Definition RePlus (r : regex) : regex := ReSeq r (ReStar r).

Definition ReChar (a : ascii) : regex := ReClass (Ascii.eqb a).

(** [^[a-zA-Z0-9._%+-]+@[a-zA-Z0-9.-]+\.[a-zA-Z]{2,}$] *)
Definition email_pattern : regex :=
  ReSeq (RePlus (ReClass email_local_byte))
    (ReSeq (ReChar "@")
       (ReSeq (RePlus (ReClass email_domain_byte))
          (ReSeq (ReChar ".")
             (ReSeq (ReClass is_letter)
                (ReSeq (ReClass is_letter) (ReStar (ReClass is_letter))))))).

Definition Email : ValidationFunc := fun field value =>
  if negb (regex_match email_pattern value) then (false, "Please enter a valid email address")
  else (true, "").

Lemma append_eq_empty s t : s +:+ t = "" -> s = "" /\ t = "".
Proof. destruct s; [now rewrite append_Empty|rewrite append_String; discriminate]. Qed.

Lemma nullable_spec r : nullable r = true <-> in_language r "".
Proof.
  split.
  - induction r as [| |p|r1 IH1 r2 IH2|r1 IH1 r2 IH2|r IH]; simpl; try discriminate.
    + intros _. constructor.
    + intros Hn. apply andb_true_iff in Hn as [H1 H2].
      change "" with ("" +:+ ""). constructor; auto.
    + intros Hn. apply orb_true_iff in Hn as [Hn|Hn]; [apply InAltL|apply InAltR]; auto.
    + intros _. constructor.
  - intros Hm. remember "" as s eqn:Es.
    induction Hm as [|p c Hp|r1 r2 s1 s2 H1 IH1 H2 IH2|r1 r2 s H IH|r1 r2 s H IH|r
                     |r s1 s2 H1 IH1 H2 IH2]; simpl; try reflexivity; try discriminate.
    + apply append_eq_empty in Es as [-> ->]. now rewrite IH1, IH2.
    + now rewrite IH.
    + rewrite IH by assumption. apply orb_true_r.
Qed.

Lemma deriv_sound c r s : in_language (deriv c r) s -> in_language r (String c s).
Proof.
  revert s. induction r as [| |p|r1 IH1 r2 IH2|r1 IH1 r2 IH2|r IH]; intros s; simpl.
  - inversion 1.
  - inversion 1.
  - destruct (p c) eqn:Hp; inversion 1; subst. now constructor.
  - assert (Hseq : in_language (ReSeq (deriv c r1) r2) s ->
                   in_language (ReSeq r1 r2) (String c s)).
    { inversion 1; subst. rewrite <- append_String. constructor; auto. }
    destruct (nullable r1) eqn:Hn; [|exact Hseq].
    inversion 1; subst; [now apply Hseq|].
    rewrite <- (append_Empty (String c s)). constructor; [now apply nullable_spec|auto].
  - inversion 1; subst; [apply InAltL|apply InAltR]; auto.
  - inversion 1; subst. rewrite <- append_String. constructor; auto.
Qed.

Lemma deriv_complete c r s : in_language r (String c s) -> in_language (deriv c r) s.
Proof.
  intros Hm. remember (String c s) as cs eqn:Ecs. revert c s Ecs.
  induction Hm as [|p a Hp|r1 r2 s1 s2 H1 IH1 H2 IH2|r1 r2 s0 H IH|r1 r2 s0 H IH|r
                   |r s1 s2 H1 IH1 H2 IH2]; intros c s Ecs; simpl; try discriminate.
  - injection Ecs as -> <-. rewrite Hp. constructor.
  - destruct s1 as [|a s1].
    + rewrite append_Empty in Ecs. subst s2.
      rewrite (proj2 (nullable_spec r1) H1). apply InAltR. now apply IH2.
    + rewrite append_String in Ecs. injection Ecs as -> <-.
      assert (Hs : in_language (ReSeq (deriv c r1) r2) (s1 +:+ s2))
        by (constructor; [now apply IH1|assumption]).
      destruct (nullable r1); [now apply InAltL|assumption].
  - apply InAltL. now apply IH.
  - apply InAltR. now apply IH.
  - destruct s1 as [|a s1].
    + rewrite append_Empty in Ecs. now apply IH2.
    + rewrite append_String in Ecs. injection Ecs as -> <-.
      constructor; [now apply IH1|assumption].
Qed.

(** The matcher decides the language. *)
Lemma regex_match_spec r s : regex_match r s = true <-> in_language r s.
Proof.
  revert r. induction s as [|c s IH]; intros r; simpl.
  - apply nullable_spec.
  - rewrite IH. split; [apply deriv_sound|apply deriv_complete].
Qed.

Lemma in_language_seq r1 r2 s :
  in_language (ReSeq r1 r2) s
  <-> exists s1 s2, s = s1 +:+ s2 /\ in_language r1 s1 /\ in_language r2 s2.
Proof.
  split.
  - inversion 1; subst. eauto.
  - intros (s1 & s2 & -> & H1 & H2). now constructor.
Qed.

Lemma in_language_class p s :
  in_language (ReClass p) s <-> exists c, s = String c "" /\ p c = true.
Proof.
  split.
  - inversion 1; subst. eauto.
  - intros (c & -> & Hp). now constructor.
Qed.

Lemma in_language_char a s : in_language (ReChar a) s <-> s = String a "".
Proof.
  unfold ReChar. rewrite in_language_class. split.
  - intros (c & -> & E). apply Ascii.eqb_eq in E. now subst.
  - intros ->. exists a. split; [reflexivity|apply Ascii.eqb_refl].
Qed.

Lemma in_language_star_class p s :
  in_language (ReStar (ReClass p)) s <-> string_forallb p s = true.
Proof.
  split.
  - intros Hm. remember (ReStar (ReClass p)) as r eqn:Er.
    induction Hm as [|q c Hq|r1 r2 s1 s2 H1 IH1 H2 IH2|r1 r2 s H IH|r1 r2 s H IH|r
                     |r s1 s2 H1 IH1 H2 IH2]; try discriminate; [reflexivity|].
    injection Er as ->. apply in_language_class in H1 as (c & -> & Hp).
    rewrite append_String, append_Empty. simpl. now rewrite Hp, IH2.
  - induction s as [|c s IH]; simpl; [constructor|].
    intros Hp. apply andb_true_iff in Hp as [Hc Hs].
    change (String c s) with (String c "" +:+ s). constructor; [now constructor|auto].
Qed.

Lemma in_language_plus_class p s :
  in_language (RePlus (ReClass p)) s <-> s <> "" /\ string_forallb p s = true.
Proof.
  unfold RePlus. rewrite in_language_seq. split.
  - intros (s1 & s2 & -> & H1 & H2).
    apply in_language_class in H1 as (c & -> & Hp).
    apply in_language_star_class in H2.
    rewrite append_String, append_Empty. simpl. rewrite Hp, H2. split; [discriminate|reflexivity].
  - intros [Hne Hp]. destruct s as [|c s]; [contradiction|].
    simpl in Hp. apply andb_true_iff in Hp as [Hc Hs].
    exists (String c ""), s. repeat split.
    + now constructor.
    + now apply in_language_star_class.
Qed.

(** Two or more bytes of the class. *)
Lemma in_language_two_or_more p s :
  in_language (ReSeq (ReClass p) (ReSeq (ReClass p) (ReStar (ReClass p)))) s
  <-> (2 <= String.length s)%nat /\ string_forallb p s = true.
Proof.
  rewrite in_language_seq. split.
  - intros (s1 & s2 & -> & H1 & H2).
    apply in_language_class in H1 as (c1 & -> & Hp1).
    apply in_language_seq in H2 as (s3 & s4 & -> & H3 & H4).
    apply in_language_class in H3 as (c2 & -> & Hp2).
    apply in_language_star_class in H4.
    rewrite !append_String, !append_Empty. simpl. rewrite Hp1, Hp2, H4.
    split; [lia|reflexivity].
  - intros [Hlen Hp]. destruct s as [|c1 [|c2 s]]; simpl in Hlen; try lia.
    simpl in Hp. apply andb_true_iff in Hp as [Hp1 Hp].
    apply andb_true_iff in Hp as [Hp2 Hp].
    exists (String c1 ""), (String c2 s). repeat split; [now constructor|].
    apply in_language_seq. exists (String c2 ""), s.
    repeat split; [now constructor|now apply in_language_star_class].
Qed.

(** The strings [Email] is written to accept. *)
Definition email_shaped (value : string) : Prop :=
  exists local domain tld,
    value = local +:+ "@" +:+ domain +:+ "." +:+ tld
    /\ local <> "" /\ string_forallb email_local_byte local = true
    /\ domain <> "" /\ string_forallb email_domain_byte domain = true
    /\ (2 <= String.length tld)%nat /\ string_forallb is_letter tld = true.

Lemma email_pattern_language value :
  in_language email_pattern value <-> email_shaped value.
Proof.
  unfold email_pattern, email_shaped. split.
  - intros Hm.
    apply in_language_seq in Hm as (l & s1 & -> & Hl & Hm).
    apply in_language_seq in Hm as (at_ & s2 & -> & Hat & Hm).
    apply in_language_seq in Hm as (d & s3 & -> & Hd & Hm).
    apply in_language_seq in Hm as (dot & t & -> & Hdot & Ht).
    apply in_language_char in Hat, Hdot. subst at_ dot.
    apply in_language_plus_class in Hl as [Hl1 Hl2], Hd as [Hd1 Hd2].
    apply in_language_two_or_more in Ht as [Ht1 Ht2].
    exists l, d, t. repeat split; assumption.
  - intros (l & d & t & -> & Hl1 & Hl2 & Hd1 & Hd2 & Ht1 & Ht2).
    constructor; [now apply in_language_plus_class|].
    constructor; [now apply in_language_char|].
    constructor; [now apply in_language_plus_class|].
    constructor; [now apply in_language_char|].
    now apply in_language_two_or_more.
Qed.

(** X19: [Email] passes exactly the values made of one or more bytes out
    of letters, digits and ._%+-, then @, then one or more bytes out of
    letters, digits, dot and hyphen, then a dot, then two or more letters;
    every other value fails with "Please enter a valid email address". *)
Theorem Email_accepts_shape field value :
  (Email field value = (true, "") <-> email_shaped value)
  /\ (Email field value = (false, "Please enter a valid email address")
      <-> ~ email_shaped value).
Proof.
  pose proof (regex_match_spec email_pattern value) as Hspec.
  rewrite email_pattern_language in Hspec. unfold Email.
  destruct (regex_match email_pattern value); simpl.
  - assert (Hs : email_shaped value) by now apply Hspec.
    split; split; intros; try reflexivity; try discriminate; tauto.
  - assert (Hn : ~ email_shaped value) by (intros Hs; apply Hspec in Hs; discriminate).
    split; split; intros; try reflexivity; try discriminate; tauto.
Qed.

Lemma Email_accepts_shape_witness :
  Email "email" ("test" +:+ "@" +:+ "example" +:+ "." +:+ "com") = (true, "").
Proof.
  apply (proj1 (Email_accepts_shape "email" ("test" +:+ "@" +:+ "example" +:+ "." +:+ "com"))).
  exists "test", "example", "com".
  repeat split; try discriminate; try reflexivity. simpl. lia.
Defined.

Example Email_tests :
  Email "email" "test@example.com" = (true, "")
  /\ Email "email" "invalid-email" = (false, "Please enter a valid email address")
  /\ Email "email" "a@b.c" = (false, "Please enter a valid email address")
  /\ Email "email" " a@b.cc" = (false, "Please enter a valid email address")
  /\ Email "email" "a@b..cc" = (true, "").
Proof. repeat split; reflexivity. Qed.

(** ** Validating different fields in either order *)

(** The field a validating call is about. *)
Definition op_field (op : Op) : option string :=
  match op with
  | OpString field _ | OpInt field _ | OpImage field _ | OpCheck _ field _ => Some field
  | _ => None
  end.

(** Record the message, if there is one. *)
Definition record (field : string) (o : option string) (v : Validator.t) : Validator.t :=
  match o with
  | Some message => Validator.set_error field message v
  | None => v
  end.

Lemma record_commute f g o1 o2 v :
  f <> g -> record f o1 (record g o2 v) = record g o2 (record f o1 v).
Proof.
  intros Hne. destruct o1, o2; simpl; try reflexivity.
  unfold Validator.set_error; simpl. f_equal. now apply insert_insert_ne.
Qed.

Lemma record_stores f o v :
  Validator.values (record f o v) = Validator.values v
  /\ Validator.files (record f o v) = Validator.files v.
Proof. destruct o; auto. Qed.

(** What the loop records depends on the value alone. *)
Lemma validate_record field value validations :
  exists o, forall v, (Validator.validate field value validations v).1 = record field o v.
Proof.
  induction validations as [|f fs [o IH]]; simpl.
  - now exists None.
  - destruct (f field value) as [[] m]; simpl.
    + exists o. intros v. specialize (IH v).
      now destruct (Validator.validate field value fs v).
    + now exists (Some m).
Qed.

Section Commute.
Context `{GoLib}.

(** What a validating call records depends on the two stores alone. *)
Lemma exec_record op field v :
  op_field op = Some field ->
  exists o, forall v',
    Validator.values v' = Validator.values v ->
    Validator.files v' = Validator.files v ->
    exec op v' = record field o v'.
Proof.
  destruct op as [f x|f x|f|f|f vs|f vs|f cfg|ok f m|]; simpl; try discriminate;
    intros E; injection E as ->.
  - destruct (validate_record field (Validator.GetValue field v) vs) as [o Ho].
    exists o. intros v' Hv _. unfold Validator.String.
    assert (Hg : Validator.GetValue field v' = Validator.GetValue field v)
      by (unfold Validator.GetValue; now rewrite Hv).
    rewrite Hg. specialize (Ho v').
    now destruct (Validator.validate field (Validator.GetValue field v) vs v').
  - destruct (validate_record field (Validator.GetValue field v) vs) as [o Ho].
    destruct (ParseInt (Validator.GetValue field v)) as [i [e|]] eqn:Hp.
    + exists (Some int_message). intros v' Hv _.
      assert (Hg : Validator.GetValue field v' = Validator.GetValue field v)
        by (unfold Validator.GetValue; now rewrite Hv).
      rewrite <- Hg in Hp. now rewrite (Int_on_parse_error _ _ _ _ _ Hp).
    + exists o. intros v' Hv _.
      assert (Hg : Validator.GetValue field v' = Validator.GetValue field v)
        by (unfold Validator.GetValue; now rewrite Hv).
      rewrite <- Hg in Hp. rewrite (Int_on_parse_ok _ _ _ _ Hp). simpl.
      rewrite Hg. apply Ho.
  - assert (Hg : forall v', Validator.files v' = Validator.files v ->
                            Validator.GetFile field v' = Validator.GetFile field v)
      by (intros v' Hf; unfold Validator.GetFile; now rewrite Hf).
    destruct (Validator.GetFile field v) as [file|] eqn:Hf.
    2:{ exists (Some "No file was uploaded"). intros v' _ Hf'.
        now rewrite (Image_missing _ _ _ (Hg v' Hf')). }
    destruct (size_check cfg file) as [m|] eqn:Hs.
    { exists (Some m). intros v' _ Hf'.
      now rewrite (Image_size_fails _ _ _ _ _ (Hg v' Hf') Hs). }
    destruct (extension_check cfg file) as [m|] eqn:He.
    { exists (Some m). intros v' _ Hf'.
      now rewrite (Image_extension_fails _ _ _ _ _ (Hg v' Hf') Hs He). }
    exists (sniff_check cfg file). intros v' _ Hf'.
    rewrite (Image_sniffs _ _ _ _ (Hg v' Hf') Hs He).
    now destruct (sniff_check cfg file).
  - exists (if ok then None else Some m). intros v' _ _. now destruct ok.
Qed.

(** X20: two validating calls ([String], [Int], [Image], [Check]) on
    different fields give the same validator in either order. *)
Theorem validating_calls_commute op1 op2 field1 field2 v :
  op_field op1 = Some field1 ->
  op_field op2 = Some field2 ->
  field1 <> field2 ->
  exec op1 (exec op2 v) = exec op2 (exec op1 v).
Proof.
  intros H1 H2 Hne.
  destruct (exec_record op1 field1 v H1) as [o1 Ho1].
  destruct (exec_record op2 field2 v H2) as [o2 Ho2].
  rewrite (Ho2 v eq_refl eq_refl), (Ho1 v eq_refl eq_refl).
  destruct (record_stores field2 o2 v) as [Hv2 Hf2].
  destruct (record_stores field1 o1 v) as [Hv1 Hf1].
  rewrite (Ho1 _ Hv2 Hf2), (Ho2 _ Hv1 Hf1).
  now apply record_commute.
Qed.

End Commute.

Lemma validating_calls_commute_witness :
  @exec sample_lib (OpString "name" [MinLength 3])
    (@exec sample_lib (OpInt "age" []) (Validator.SetValue "name" "jo" Validator.New))
  = @exec sample_lib (OpInt "age" [])
      (@exec sample_lib (OpString "name" [MinLength 3])
         (Validator.SetValue "name" "jo" Validator.New)).
Proof.
  apply (@validating_calls_commute sample_lib (OpString "name" [MinLength 3]) (OpInt "age" [])
           "name" "age").
  - reflexivity.
  - reflexivity.
  - discriminate.
Defined.

Section Repeat.
Context `{GoLib}.

Lemma record_twice f o v : record f o (record f o v) = record f o v.
Proof. destruct o; simpl; [apply set_error_twice|reflexivity]. Qed.

(** X21: what a validating call does is independent of the errors
    recorded so far: repeating the call changes nothing any more, and an
    error recorded under another field before the call is the same as one
    recorded after it. *)
Theorem validating_call_ignores_errors op field v :
  op_field op = Some field ->
  exec op (exec op v) = exec op v
  /\ (forall other message,
        other <> field ->
        exec op (Validator.set_error other message v)
        = Validator.set_error other message (exec op v)).
Proof.
  intros Hop. destruct (exec_record op field v Hop) as [o Ho].
  rewrite (Ho v eq_refl eq_refl). split.
  - destruct (record_stores field o v) as [Hv Hf].
    rewrite (Ho _ Hv Hf). apply record_twice.
  - intros other message Hne.
    rewrite (Ho (Validator.set_error other message v) eq_refl eq_refl).
    apply (record_commute field other o (Some message) v). congruence.
Qed.

End Repeat.

Lemma validating_call_ignores_errors_witness :
  @exec sample_lib (OpInt "age" [MinLength 1])
    (@exec sample_lib (OpInt "age" [MinLength 1]) Validator.New)
  = @exec sample_lib (OpInt "age" [MinLength 1]) Validator.New.
Proof.
  apply (proj1 (@validating_call_ignores_errors sample_lib (OpInt "age" [MinLength 1])
                  "age" Validator.New eq_refl)).
Defined.

(** ** The sniffing buffer *)

(** X22: the buffer [Image] hands to the content sniffer always has 512
    bytes: the bytes the read delivered, at most 512 of them, followed by
    zero bytes up to 512. *)
Theorem read_buffer_is_padded f :
  length (read_buffer f) = 512%nat
  /\ read_buffer f
     = take 512 (Read_data f) ++ replicate (512 - length (Read_data f)) x00
  /\ ((length (Read_data f) <= 512)%nat ->
      read_buffer f = Read_data f ++ replicate (512 - length (Read_data f)) x00).
Proof.
  unfold read_buffer.
  assert (Hpad : take 512 (Read_data f ++ replicate 512 x00)
                 = take 512 (Read_data f)
                   ++ replicate (512 - length (Read_data f)) x00).
  { rewrite take_app. f_equal. rewrite take_replicate. f_equal. lia. }
  repeat split.
  - rewrite length_take, length_app, length_replicate. lia.
  - exact Hpad.
  - intros Hle. rewrite Hpad. now rewrite take_ge by lia.
Qed.

Lemma read_buffer_is_padded_witness :
  read_buffer {| Read_data := [xff; xd8; xff]; Read_err := ReadNil |}
  = [xff; xd8; xff] ++ replicate (512 - 3) x00.
Proof.
  apply (proj2 (proj2 (read_buffer_is_padded
                         {| Read_data := [xff; xd8; xff]; Read_err := ReadNil |}))).
  simpl. lia.
Defined.

(** ** The extension check on file names *)

Lemma Ext_plain stem e :
  string_forallb plain_byte e = true -> Ext (stem +:+ "." +:+ e) = "." +:+ e.
Proof.
  intros He. unfold Ext. rewrite append_String, append_Empty.
  rewrite length_append. simpl String.length.
  apply Ext_loop_plain; [assumption|lia].
Qed.

Lemma Ext_no_dot base : string_forallb not_dot base = true -> Ext base = "".
Proof.
  intros Hb. unfold Ext.
  apply (Ext_loop_no_dot "" base (String.length base) Hb); [lia|now left].
Qed.

Section FileNames.
Context `{GoLib}.

(** X23: for a file named [stem.e], with neither dot nor slash in [e],
    the extension check passes exactly when no extension is configured or
    [.e] equals an allowed extension once both are lower-cased. A file
    name without any dot is rejected by every configuration [ImageConfig]
    builds with at least one recognised format. *)
Theorem extension_check_on_file_name config file stem e maxSize formats :
  (Filename file = stem +:+ "." +:+ e ->
   string_forallb plain_byte e = true ->
   (extension_check config file = None
    <-> AllowedExts config = []
        \/ exists allowedExt, In allowedExt (AllowedExts config)
                              /\ ToLower allowedExt = ToLower ("." +:+ e)))
  /\ (string_forallb not_dot (Filename file) = true ->
      AllowedExts (ImageConfig maxSize formats) <> [] ->
      extension_check (ImageConfig maxSize formats) file
      = Some ("Invalid file extension. Allowed: "
              +:+ Join (AllowedExts (ImageConfig maxSize formats)) ", ")).
Proof.
  split.
  - intros Hname He. rewrite extension_check_None, Hname. now rewrite (Ext_plain stem e He).
  - intros Hname Hne.
    destruct (extension_check (ImageConfig maxSize formats) file) as [m|] eqn:Hc.
    + unfold extension_check in Hc.
      match type of Hc with (if ?b then _ else _) = _ => destruct b end;
        [now symmetry|discriminate].
    + exfalso. apply extension_check_None in Hc as [E|(a & Ha & E)]; [contradiction|].
      rewrite (Ext_no_dot _ Hname) in E.
      destruct (ImageConfig_shape maxSize formats) as (fs & _ & Hcfg).
      rewrite Hcfg in Ha. simpl in Ha.
      apply (proj1 (proj2 (flat_map_expansion fs))) in Ha.
      rewrite (ToLower_known_extension a Ha) in E. subst a.
      simpl in Ha. change (ToLower "") with "" in Ha.
      destruct Ha as [E|[E|[E|[E|[E|[]]]]]]; discriminate E.
Qed.

End FileNames.

Lemma extension_check_on_file_name_witness :
  @extension_check sample_lib (@ImageConfig sample_lib MB ["png"])
    {| Filename := "README"; Size := 10; Open := OpenErr |}
  = Some ("Invalid file extension. Allowed: "
          +:+ Join (AllowedExts (@ImageConfig sample_lib MB ["png"])) ", ").
Proof.
  apply (proj2 (@extension_check_on_file_name sample_lib
                  (@ImageConfig sample_lib MB ["png"])
                  {| Filename := "README"; Size := 10; Open := OpenErr |}
                  "" "" MB ["png"])).
  - reflexivity.
  - discriminate.
Defined.
